(** * KSC field mill binary converter: the record decoder and minute averager

    A shallow embedding of [translate_KSC] from [KSC_BinaryConverter.py]:
    the [while] loop that reads 7184-byte records, unpacks the time stamp
    and the 34 mill sub-records, folds the per-record means into the
    running sums and writes one averaged row every 60 records.

    Python values are modelled as follows.
    - [bytes] objects are [list byte]; slices are [take]/[drop].
    - Python [int]s are [Z]; Python [float]s are the kernel's binary64
      floats ([PrimFloat]), the same IEEE 754 format CPython uses.
    - [struct.error] and [IndexError] are the two exceptions the function
      can raise; they are the constructors of [exn] and computations that
      may raise live in [result].
    - The format strings given to [struct.unpack] carry no byte-order
      prefix, so multi-byte fields are read in the byte order of the
      machine that runs the script ([sys.byteorder]); this is the
      [byteorder] argument [host] of the decoding functions.
    - The rows handed to [writer.writerow] are collected in a list.

    The caller [process_files] (the size check, the header row, the files
    removed) and the names built by the download loop are embedded as
    well; archives, the network and the file system itself are not. *)

From Stdlib Require Import ZArith List Strings.String Strings.Ascii Strings.Byte.
From Stdlib Require Import Floats Uint63 DecimalString Lia.
From stdpp Require Import base list.
Import ListNotations.

Local Open Scope Z_scope.

(** ** Python primitives *)

Module Py.

(** Exceptions raised inside [translate_KSC]. *)
Inductive exn : Set :=
| StructError   (* struct.error: buffer of the wrong size *)
| IndexError.   (* list index out of range *)

Inductive result (A : Type) : Type :=
| Ok (a : A)
| Raise (e : exn).
Arguments Ok {A} a.
Arguments Raise {A} e.

Definition bind {A B} (m : result A) (k : A -> result B) : result B :=
  match m with
  | Ok a => k a
  | Raise e => Raise e
  end.

(** A [for] loop whose body may raise: the first exception ends it. *)
Fixpoint for_each {A S} (body : A -> S -> result S) (xs : list A) (s : S) : result S :=
  match xs with
  | [] => Ok s
  | x :: xs' => bind (body x s) (for_each body xs')
  end.

(** [sys.byteorder]. *)
Inductive byteorder : Set := little | big.

(** [b[lo:hi]] and [b[lo:]] for non-negative bounds. *)
Definition slice {A} (lo hi : nat) (b : list A) : list A := take (hi - lo) (drop lo b).
Definition slice_from {A} (lo : nat) (b : list A) : list A := drop lo b.

(** The value of one byte as an unsigned integer (format [B]). *)
Definition u8 (b : byte) : Z := Z.of_N (Byte.to_N b).

(** One [h] field: a two's complement 16-bit integer in the given order. *)
Definition int16 (order : byteorder) (b0 b1 : byte) : Z :=
  let u := match order with
           | little => u8 b0 + 256 * u8 b1
           | big => 256 * u8 b0 + u8 b1
           end in
  if u <? 32768 then u else u - 65536.

(** A run of [h] fields. *)
Fixpoint int16s (order : byteorder) (b : list byte) : list Z :=
  match b with
  | b0 :: b1 :: rest => int16 order b0 b1 :: int16s order rest
  | _ => []
  end.

(** [struct.unpack('6B', buf)]. *)
Definition unpack_6B (buf : list byte) : result (Z * Z * Z * Z * Z * Z) :=
  match buf with
  | [a; b; c; d; e; f] => Ok (u8 a, u8 b, u8 c, u8 d, u8 e, u8 f)
  | _ => Raise StructError
  end.

(** [struct.calcsize("BB7xB50h2x")]: 1+1+7+1 bytes, then 50 shorts that
    start on the even offset 10 (no alignment padding), then 2 pad bytes. *)
Definition mill_size : nat := 112.

(** [struct.unpack("BB7xB50h2x", buf)]: the tuple
    [(address, mode, rain, h0, ..., h49)] as a list of 53 integers. *)
Definition unpack_BB7xB50h2x (order : byteorder) (buf : list byte) : result (list Z) :=
  if Nat.eqb (length buf) mill_size then
    match buf with
    | a :: m :: rest =>
        match drop 7 rest with
        | r :: data => Ok (u8 a :: u8 m :: u8 r :: int16s order (take 100 data))
        | [] => Raise StructError
        end
    | _ => Raise StructError
    end
  else Raise StructError.

(** [float(n)] for a Python integer; exact below 2^53, which covers every
    sum of 50 shorts. *)
Definition float_of_int (n : Z) : float :=
  if n <? 0 then PrimFloat.opp (PrimFloat.of_uint63 (Uint63.of_Z (- n)))
  else PrimFloat.of_uint63 (Uint63.of_Z n).

(** [sum(xs)] over integers. *)
Definition sum (xs : list Z) : Z := fold_left Z.add xs 0.

(** Position selected by [l[i]] in a list of length [len]: negative
    indices count from the end, anything else out of range raises. *)
Definition index (len : nat) (i : Z) : result nat :=
  if (0 <=? i) && (i <? Z.of_nat len) then Ok (Z.to_nat i)
  else if (- Z.of_nat len <=? i) && (i <? 0) then Ok (Z.to_nat (i + Z.of_nat len))
  else Raise IndexError.

(** [l[i] += v] on a list of floats. *)
Definition iadd (l : list float) (i : Z) (v : float) : result (list float) :=
  bind (index (length l) i) (fun k => Ok (alter (fun x => PrimFloat.add x v) k l)).

(** [l[i]] where the index is known to be in range ([0.] otherwise). *)
Definition get (l : list float) (i : nat) : float := default PrimFloat.zero (l !! i).

(** ["{:0Wd}".format(n)]: decimal digits, zero-filled to width [W]
    (the sign, if any, comes first and counts towards the width). *)
Definition digits (n : Z) : string := NilZero.string_of_uint (N.to_uint (Z.to_N n)).

Fixpoint zeros (k : nat) : string :=
  match k with
  | O => EmptyString
  | S k' => String "0" (zeros k')
  end.

Definition zfill (w : nat) (s : string) : string :=
  append (zeros (w - String.length s)) s.

Definition format_0d (w : nat) (n : Z) : string :=
  if n <? 0 then String "-" (zfill (w - 1) (digits (- n)))
  else zfill w (digits n).

End Py.

Import Py.

(** [x ← m; k] runs [m] and, unless it raised, goes on with [k]. *)
#[global] Instance result_bind : MBind result := fun A B k m => Py.bind m k.

(** ** The converter *)

(** [chunksize = 7184] and [chunk2size = 112]. *)
Definition chunksize : nat := Z.to_nat 7184.
Definition chunk2size : nat := 112.

(** Number of mills unpacked from every record ([range(34)]). *)
Definition n_mills : nat := 34.

(** The local variables that live across iterations of the [while] loop.
    [time] is unbound in Python until the first record has been read; it
    is only read after that, so its initial value here is never observed. *)
Record state : Type := State {
  second_count : Z;
  mill_counts : list float;
  mill_values : list float;
  time : string
}.

(** The argument of [writer.writerow]: [[time] + vals]. *)
Definition row : Type := string * list float.

(** [[0. for i in range(34)]] *)
Definition fresh : list float := replicate n_mills PrimFloat.zero.

Definition start : state :=
  {| second_count := 0; mill_counts := fresh; mill_values := fresh; time := EmptyString |}.

(** Lines 167-170: the two-digit year. *)
Definition full_year (year : Z) : Z :=
  if year <? 90 then year + 2000 else year + 1900.

(** Line 171: ["{0:04d}-{1:02d}-{2:02d} {3:02d}:{4:02d}".format(...)]. *)
Definition format_time (year month day hour minute : Z) : string :=
  (format_0d 4 year ++ "-" ++ format_0d 2 month ++ "-" ++ format_0d 2 day
     ++ " " ++ format_0d 2 hour ++ ":" ++ format_0d 2 minute)%string.

(** Lines 165-171: the label computed from bytes 4..9 of a record. *)
Definition chunk_time (chunk : list byte) : result string :=
  '(year, month, day, hour, minute, second) ← unpack_6B (slice 4 10 chunk);
  Ok (format_time (full_year year) month day hour minute).

(** Line 185: [float(sum(x[3:]))/len(x[3:])]. *)
Definition mean (samples : list Z) : float :=
  PrimFloat.div (float_of_int (Py.sum samples))
                (float_of_int (Z.of_nat (length samples))).

(** Lines 177-186: the body of [for i in range(34)], on the pair
    [(mill_counts, mill_values)]. *)
Definition mill (host : byteorder) (chunk2 : list byte) (i : nat)
    (acc : list float * list float) : result (list float * list float) :=
  let '(counts, values) := acc in
  x ← unpack_BB7xB50h2x host (slice (i * chunk2size) ((i + 1) * chunk2size) chunk2);
  if negb (nth 1 x 0 =? 1) then Ok acc
  else
    let address := nth 0 x 0 in
    let rain := nth 2 x 0 in
    values' ← iadd values (address - 1) (mean (drop 3 x));
    counts' ← iadd counts (address - 1) PrimFloat.one;
    Ok (counts', values').

(** Lines 173-186: all 34 mills of one record. *)
Definition mills (host : byteorder) (chunk : list byte)
    (acc : list float * list float) : result (list float * list float) :=
  let chunk2 := slice_from 16 chunk in
  for_each (mill host chunk2) (seq 0 n_mills) acc.

(** Lines 193-194: the averages of a closed window. *)
Definition averages (counts values : list float) : list float :=
  (fun i => if PrimFloat.ltb PrimFloat.zero (get counts i)
            then PrimFloat.div (get values i) (get counts i)
            else PrimFloat.nan)
    <$> seq 0 (length values).

(** Lines 159-162: the sums a pass starts from; they are created afresh
    whenever [second_count] is 0, that is, at the first record of a window. *)
Definition entry (st : state) : list float * list float :=
  if second_count st =? 0 then (fresh, fresh) else (mill_counts st, mill_values st).

(** What one pass through the body of [while True] does. *)
Inductive flow : Type :=
| Break                                   (* empty read: leave the loop *)
| Next (st : state) (out : option row).   (* go round again, maybe having written a row *)

(** Lines 190-197: count the record and, on the 60th, write the row. *)
Definition tick (st : state) (t : string) (counts' values' : list float) : flow :=
  let n := second_count st + 1 in
  if n =? 60 then
    Next {| second_count := 0; mill_counts := counts';
            mill_values := values'; time := t |}
         (Some (t, averages counts' values'))
  else
    Next {| second_count := n; mill_counts := counts';
            mill_values := values'; time := t |}
         None.

(** Lines 158-197: one iteration, given the bytes [f.read] returned. *)
Definition iteration (host : byteorder) (st : state) (chunk : list byte) : result flow :=
  let acc := entry st in
  match chunk with
  | [] => Ok Break
  | _ :: _ =>
      t ← chunk_time chunk;
      '(counts', values') ← mills host chunk acc;
      Ok (tick st t counts' values')
  end.

(** How a call of [translate_KSC] ends. *)
Inductive outcome : Set :=
| Returned
| Raised (e : exn).

(** The [while True] loop over the rest [f] of the file. Every pass that
    does not leave the loop consumes at least one byte, so [length f + 1]
    passes are enough: [None] (out of fuel) is never the result of
    [translate_KSC] (see [translate_KSC_total]). [written] is what the
    writer has received so far, most recent row last. *)
Fixpoint while_true (fuel : nat) (host : byteorder) (st : state) (f : list byte)
    (written : list row) : option (list row * outcome) :=
  match fuel with
  | O => None
  | S fuel' =>
      let chunk := take chunksize f in
      match iteration host st chunk with
      | Raise e => Some (written, Raised e)
      | Ok Break => Some (written, Returned)
      | Ok (Next st' out) =>
          while_true fuel' host st' (drop chunksize f)
                     (written ++ match out with Some r => [r] | None => [] end)
      end
  end.

(** [translate_KSC(infile, writer)]: [infile] is the content of the file,
    the result is the list of rows written and how the call ended. *)
Definition translate_KSC (host : byteorder) (infile : list byte) : option (list row * outcome) :=
  while_true (S (length infile)) host start infile [].

(** ** Reading a record by offsets

    The fields of a record as the file format lays them out; the
    statements below are phrased with these. *)

(** The [i]-th 112-byte mill sub-record: bytes [16+112i .. 16+112(i+1)). *)
Definition mill_bytes (chunk : list byte) (i : nat) : list byte :=
  slice (i * chunk2size) ((i + 1) * chunk2size) (slice_from 16 chunk).

Definition mill_address (chunk : list byte) (i : nat) : Z :=
  u8 (nth 0 (mill_bytes chunk i) x00).

Definition mill_mode (chunk : list byte) (i : nat) : Z :=
  u8 (nth 1 (mill_bytes chunk i) x00).

(** The 50 samples of sub-record [i], read in the given byte order. *)
Definition mill_samples (order : byteorder) (chunk : list byte) (i : nat) : list Z :=
  int16s order (slice 10 110 (mill_bytes chunk i)).

(** Every sub-record with mode 1 carries an address that a 34-element
    list can be indexed with after subtracting one (0..34). *)
Definition addresses_in_range (chunk : list byte) : bool :=
  forallb (fun i => implb (mill_mode chunk i =? 1) (mill_address chunk i <=? 34))
          (seq 0 n_mills).

(** The label of a record: bytes 4..8, the year made four digits. *)
Definition label (chunk : list byte) : string :=
  format_time (full_year (u8 (nth 4 chunk x00))) (u8 (nth 5 chunk x00))
    (u8 (nth 6 chunk x00)) (u8 (nth 7 chunk x00)) (u8 (nth 8 chunk x00)).

(** The list position that address [a] selects in [mill_values[a-1]] when
    the list has 34 entries: address 0 gives index -1, the last entry. *)
Definition slot (address : Z) : nat :=
  if address =? 0 then 33%nat else Z.to_nat (address - 1).

(** What the body of the [for] loop does to the sums when it does not
    raise: a sub-record with mode 1 adds its mean and a count of one at
    the slot of its address, any other sub-record changes nothing. *)
Definition fold_mill (host : byteorder) (chunk : list byte)
    (acc : list float * list float) (i : nat) : list float * list float :=
  if mill_mode chunk i =? 1 then
    let k := slot (mill_address chunk i) in
    (alter (fun c => PrimFloat.add c PrimFloat.one) k acc.1,
     alter (fun v => PrimFloat.add v (mean (mill_samples host chunk i))) k acc.2)
  else acc.

(** The sub-records of a record that are folded into slot [k], in order. *)
Definition hits (chunk : list byte) (k : nat) : list nat :=
  filter (fun i => mill_mode chunk i = 1 ∧ slot (mill_address chunk i) = k)
         (seq 0 n_mills).

(** A count after [n] increments: [0. + 1 + ... + 1]. *)
Definition count_of (n : nat) : float :=
  Nat.iter n (fun c => PrimFloat.add c PrimFloat.one) PrimFloat.zero.

(** [c] is a count of at most [m] increments. *)
Definition is_count (m : nat) (c : float) : Prop :=
  ∃ n, (n ≤ m)%nat ∧ c = count_of n.

(** What holds of every state at the top of an iteration: the counter is
    below 60 and the sums the iteration starts from are 34 entries long,
    with counts of at most 34 increments per record already read. *)
Definition invariant (st : state) : Prop :=
  0 ≤ second_count st < 60 ∧
  length (entry st).1 = n_mills ∧
  length (entry st).2 = n_mills ∧
  Forall (is_count (n_mills * Z.to_nat (second_count st))) (entry st).1.

(** The states the loop can be in at the top of an iteration. *)
Inductive reachable (host : byteorder) : state → Prop :=
| reachable_start : reachable host start
| reachable_next st chunk st' out :
    reachable host st →
    iteration host st chunk = Ok (Next st' out) →
    reachable host st'.

(** Lines 246-249, the body of [for f in files] in [process_files]: a file
    is converted only if its size is 12931200 bytes, that is 1800 records
    of 7184 bytes; any other file is reported and skipped. *)
Definition process_file (host : byteorder) (infile : list byte)
    : option (list row * outcome) :=
  if Z.of_nat (length infile) =? 12931200 then translate_KSC host infile
  else Some ([], Returned).

(** The loop seen from the reads: [chunks] are the successive non-empty
    results of [f.read], after which the read is empty. *)
Fixpoint feed (host : byteorder) (st : state) (chunks : list (list byte))
    (written : list row) : list row * outcome :=
  match chunks with
  | [] => (written, Returned)
  | chunk :: rest =>
      match iteration host st chunk with
      | Raise e => (written, Raised e)
      | Ok Break => (written, Returned)
      | Ok (Next st' out) =>
          feed host st' rest (written ++ match out with Some r => [r] | None => [] end)
      end
  end.

(** The state at the top of the pass that follows the reads [chunks], if
    none of them raised or was empty. *)
Fixpoint state_after (host : byteorder) (st : state) (chunks : list (list byte))
    : option state :=
  match chunks with
  | [] => Some st
  | chunk :: rest =>
      match iteration host st chunk with
      | Ok (Next st' _) => state_after host st' rest
      | _ => None
      end
  end.

(** ** A window seen as a whole *)

(** Both lists after the sub-records of the records [w] have been folded
    in, record after record, when no address is out of range. *)
Definition fold_records (host : byteorder) (w : list (list byte))
    (acc : list float * list float) : list float * list float :=
  fold_left (fun acc chunk => fold_left (fold_mill host chunk) (seq 0 n_mills) acc) w acc.

(** The per-record means that the records [w] contribute to entry [k], in
    the order in which they are added. *)
Definition window_means (host : byteorder) (w : list (list byte)) (k : nat) : list float :=
  concat (map (fun chunk => map (fun i => mean (mill_samples host chunk i)) (hits chunk k)) w).

(** [sum(ms)] over floats, added from the left starting at [0.]. *)
Definition float_sum (ms : list float) : float :=
  fold_left PrimFloat.add ms PrimFloat.zero.

(** [int(s)] for a string of decimal digits; [None] stands for the
    [ValueError] of any other string. *)
Definition int_of_digits (s : string) : option Z :=
  (fun d => Z.of_N (N.of_uint d)) <$> NilZero.uint_of_string s.

(** ** [process_files] *)

(** A cell handed to the csv writer. *)
Inductive cell : Type :=
| Text (s : string)
| Int (z : Z)
| Float (x : float).

(** Line 241, the header row: [["Time"] + [i+1 for i in range(34)]]. *)
Definition header : list cell :=
  Text "Time" :: ((fun i => Int (Z.of_nat i + 1)) <$> seq 0 34).

(** Line 196, the list [translate_KSC] hands to the writer: [[time] + vals]. *)
Definition cells (r : row) : list cell := Text r.1 :: (Float <$> r.2).

(** What a call of [process_files] leaves behind: the rows of the csv
    file, the lines printed and the files removed, each in order. *)
Record effects : Type := Effects {
  csv : list (list cell);
  stdout : list string;
  removed : list string
}.

(** Lines 242-250, [for f in files]: [files] are the names and contents
    of the [.dat] files in the order of [sorted(glob.glob(...))]. An
    exception raised by [translate_KSC] leaves the loop and the function;
    the rows written before it are in the csv file. *)
Fixpoint for_files (host : byteorder) (files : list (string * list byte)) (e : effects)
    : option (effects * outcome) :=
  match files with
  | [] => Some (e, Returned)
  | (f, content) :: rest =>
      if Z.of_nat (length content) =? 12931200 then
        match translate_KSC host content with
        | None => None
        | Some (rows, Raised x) =>
            Some ({| csv := csv e ++ (cells <$> rows); stdout := stdout e;
                     removed := removed e |}, Raised x)
        | Some (rows, Returned) =>
            for_files host rest
              {| csv := csv e ++ (cells <$> rows); stdout := stdout e;
                 removed := removed e ++ [f] |}
        end
      else
        for_files host rest
          {| csv := csv e; stdout := stdout e ++ [("Error in file: " ++ f)%string];
             removed := removed e ++ [f] |}
  end.

(** Lines 235-251, [process_files(outfile)]. *)
Definition process_files (host : byteorder) (outfile : string)
    (files : list (string * list byte)) : option (effects * outcome) :=
  match for_files host files {| csv := [header]; stdout := []; removed := [] |} with
  | Some (e, Returned) =>
      Some ({| csv := csv e;
               stdout := stdout e ++ [("Processing Complete: " ++ outfile)%string];
               removed := removed e |}, Returned)
  | other => other
  end.

(** The first [n] records of a file all have their addresses in range. *)
Fixpoint all_in_range (n : nat) (content : list byte) : bool :=
  match n with
  | O => true
  | S n' =>
      if addresses_in_range (take chunksize content)
      then all_in_range n' (drop chunksize content)
      else false
  end.

(** A file [process_files] converts: the right size or not. *)
Definition right_size (file : string * list byte) : bool :=
  Z.of_nat (length file.2) =? 12931200.

(** ** The names used by the download loop *)

(** Lines 205-207 and 265. *)
Definition tardir : string := "tars/".
Definition storagedir : string := "KSC_data/".
Definition base_url : string := "ftp://ghrc.nsstc.nasa.gov/pub/data/ksc-fieldmill/".

(** Line 268: ["agbfm_{0:04d}.{1:03d}_daily.tar".format(year, day)]. *)
Definition file_name (year day : Z) : string :=
  ("agbfm_" ++ format_0d 4 year ++ "." ++ format_0d 3 day ++ "_daily.tar")%string.

(** Line 269: [base_url + "{0:04d}/".format(year) + file_name]. *)
Definition url (year day : Z) : string :=
  (base_url ++ (format_0d 4 year ++ "/") ++ file_name year day)%string.

(** Line 270: [tardir + file_name]. *)
Definition tf_name (year day : Z) : string := (tardir ++ file_name year day)%string.

(** Line 272: [storagedir + "{0:04d}_{1:03d}.csv".format(year, day)]. *)
Definition outfile (year day : Z) : string :=
  (storagedir ++ (format_0d 4 year ++ "_" ++ format_0d 3 day ++ ".csv"))%string.

(** ** Test vectors *)

(** A 112-byte mill sub-record: address, mode, seven status bytes, the
    rain gauge (all zero), a first sample made of the bytes [s0 s1], 49
    zero samples and a zero CRC. *)
Definition mill_record (address mode s0 s1 : byte) : list byte :=
  [address; mode] ++ replicate 8 x00 ++ [s0; s1] ++ replicate 98 x00 ++ [x00; x00].

(** A full record: the reserved bytes, the time stamp
    [yy-12-31 23:59:00], six more header bytes, the given mill
    sub-records and zero bytes up to 7184. *)
Definition record (yy : byte) (mills : list byte) : list byte :=
  take chunksize
    (replicate 4 x89 ++ [yy; x0c; x1f; x17; x3b; x00] ++ replicate 6 x00 ++ mills
       ++ replicate chunksize x00).

(** The first 3824 bytes of a record: the header and 34 sub-records. *)
Definition truncated_record : list byte := take 3824 (record x60 []).

(** A record whose first sub-record has mode 1 and address 35. *)
Definition stray_address_record : list byte :=
  record x60 (mill_record x23 x01 x00 x01).

(** A record in which station 5 alone reports, with mode 1 and a first
    sample of 5000 when read low byte first: a mean of 100.0. *)
Definition station5_record : list byte :=
  record x60 (mill_record x05 x01 x88 x13).

(** The loop after 59 and after 60 reads of [station5_record]. *)
Definition state_after_59 : state :=
  {| second_count := 59;
     mill_counts := <[4%nat := 59%float]> fresh;
     mill_values := <[4%nat := 5900%float]> fresh;
     time := "1996-12-31 23:59" |}.


Definition station5_row : row :=
  ("1996-12-31 23:59"%string, <[4%nat := 100%float]> (replicate 34 PrimFloat.nan)).


(** Fifty-nine good records and then one with a stray address. *)
Definition sixty_with_stray : list (list byte) :=
  replicate 59 station5_record ++ [stray_address_record].

(** A record whose first three sub-records are in mode 1 with the
    addresses 0, 7 and 7. *)
Definition shared_address_record : list byte :=
  record x60 (mill_record x00 x01 x88 x13 ++ mill_record x07 x01 x88 x13
                ++ mill_record x07 x01 x88 x13).

(** [station5_record] with every byte outside [4..10) and [16..3824)
    replaced by 0xff. *)
Definition scrambled_record : list byte :=
  replicate 4 xff ++ slice 4 10 station5_record ++ replicate 6 xff
    ++ slice 16 3824 station5_record ++ replicate 3360 xff.

(** A record whose first sub-record is in mode 1 at address 1, with the
    bytes [00 01] as its first sample and zeros for the other 49. *)
Definition one_sample_record : list byte :=
  record x60 (mill_record x01 x01 x00 x01).

(** Sixty whole records followed by the first 100 bytes of another. *)
Definition sixty_and_a_bit : list byte :=
  concat (replicate 60 station5_record) ++ take 100 station5_record.

(** [station5_record] with the seconds byte and the status, rain gauge
    and CRC bytes of all 34 sub-records replaced by 0xff. *)
Definition noisy_record : list byte :=
  imap (fun j b =>
          if ((4 <=? j) && (j <? 9))%nat
             || ((16 <=? j) && (j <? 3824)
                 && (((j - 16) mod 112 <? 2)
                     || ((10 <=? (j - 16) mod 112) && ((j - 16) mod 112 <? 110))))%nat
          then b else xff)
       station5_record.

(** A file of 1800 whole records, half an hour of data, and the same
    with a stray address in its first record. *)
Definition half_hour_file : list byte := concat (replicate 1800 station5_record).

Definition half_hour_file_with_stray : list byte :=
  concat (stray_address_record :: replicate 1799 station5_record).

(** ** Facts about the Python primitives *)

Lemma bind_Ok {A B} (a : A) (k : A → result B) : (Ok a ≫= k) = k a.
Proof. reflexivity. Qed.

Lemma bind_Raise {A B} (e : exn) (k : A → result B) : (Raise e ≫= k) = Raise e.
Proof. reflexivity. Qed.

Lemma bind_Ok_inv {A B} (m : result A) (k : A → result B) (b : B) :
  (m ≫= k) = Ok b → ∃ a, m = Ok a ∧ k a = Ok b.
Proof. destruct m as [a|e]; [eauto | discriminate]. Qed.

Lemma length_slice {A} (lo hi : nat) (b : list A) :
  length (slice lo hi b) = ((hi - lo) `min` (length b - lo))%nat.
Proof. unfold slice. by rewrite length_take, length_drop. Qed.


Lemma unpack_mill_short (order : byteorder) (buf : list byte) :
  length buf ≠ mill_size → unpack_BB7xB50h2x order buf = Raise StructError.
Proof.
  intros H. unfold unpack_BB7xB50h2x.
  destruct (Nat.eqb_spec (length buf) mill_size); [contradiction | reflexivity].
Qed.

(** On a buffer of the right size the tuple is: byte 0, byte 1, byte 9 and
    the shorts found in bytes 10..109. *)
Lemma unpack_mill_full (order : byteorder) (buf : list byte) :
  length buf = mill_size →
  unpack_BB7xB50h2x order buf =
    Ok (u8 (nth 0 buf x00) :: u8 (nth 1 buf x00) :: u8 (nth 9 buf x00)
          :: int16s order (slice 10 110 buf)).
Proof.
  intros H. unfold unpack_BB7xB50h2x. rewrite H, Nat.eqb_refl.
  do 10 (destruct buf as [|? buf]; [discriminate H|]).
  reflexivity.
Qed.

(** A loop stops with an exception as soon as it meets an element on
    which the body always raises. *)
Lemma for_each_raises {A S} (body : A → S → result S) (xs : list A) (x : A) (s : S) :
  x ∈ xs → (∀ s', ∃ e, body x s' = Raise e) → ∃ e, for_each body xs s = Raise e.
Proof.
  intros Hin Hx. revert s.
  induction xs as [|y ys IH]; intros s.
  - by apply elem_of_nil in Hin.
  - simpl. apply elem_of_cons in Hin as [->|Hin].
    + destruct (Hx s) as [e ->]. by exists e.
    + destruct (body y s) as [s'|e]; simpl; [by apply IH | by exists e].
Qed.

Lemma for_each_ext {A S} (f g : A → S → result S) (xs : list A) (s : S) :
  (∀ x s', x ∈ xs → f x s' = g x s') → for_each f xs s = for_each g xs s.
Proof.
  revert s. induction xs as [|y ys IH]; intros s H; [reflexivity|].
  simpl. rewrite (H y s) by apply list_elem_of_here.
  destruct (g y s) as [s'|e]; simpl; [|reflexivity].
  apply IH. intros x s'' Hx. apply H. by apply list_elem_of_further.
Qed.

Lemma index_in_range (len : nat) (i : Z) :
  0 ≤ i < Z.of_nat len → Py.index len i = Ok (Z.to_nat i).
Proof.
  intros H. unfold Py.index.
  destruct (Z.leb_spec 0 i), (Z.ltb_spec i (Z.of_nat len)); simpl; (reflexivity || lia).
Qed.

Lemma index_negative (len : nat) (i : Z) :
  - Z.of_nat len ≤ i < 0 → Py.index len i = Ok (Z.to_nat (i + Z.of_nat len)).
Proof.
  intros H. unfold Py.index.
  destruct (Z.leb_spec 0 i); [lia|]. simpl.
  destruct (Z.leb_spec (- Z.of_nat len) i), (Z.ltb_spec i 0); simpl; (reflexivity || lia).
Qed.

Lemma index_out_of_range (len : nat) (i : Z) :
  Z.of_nat len ≤ i ∨ i < - Z.of_nat len → Py.index len i = Raise IndexError.
Proof.
  intros H. unfold Py.index.
  destruct (Z.leb_spec 0 i), (Z.ltb_spec i (Z.of_nat len)),
    (Z.leb_spec (- Z.of_nat len) i), (Z.ltb_spec i 0); simpl; (reflexivity || lia).
Qed.

Lemma index_Ok_lt (len : nat) (i : Z) (k : nat) :
  Py.index len i = Ok k → (k < len)%nat.
Proof.
  unfold Py.index.
  destruct (Z.leb_spec 0 i), (Z.ltb_spec i (Z.of_nat len)),
    (Z.leb_spec (- Z.of_nat len) i), (Z.ltb_spec i 0); simpl;
    intros [= <-] || discriminate; lia.
Qed.

Lemma u8_range (b : byte) : 0 ≤ u8 b < 256.
Proof. unfold u8. pose proof (Byte.to_N_bounded b). lia. Qed.

(** ** The time stamp *)


Lemma chunk_time_long (chunk : list byte) :
  (10 ≤ length chunk)%nat → chunk_time chunk = Ok (label chunk).
Proof.
  intros H.
  do 10 (destruct chunk as [|? chunk]; [simpl in H; lia|]).
  reflexivity.
Qed.

(** ** One mill sub-record *)

Lemma length_mill_bytes (chunk : list byte) (i : nat) :
  (16 + (i + 1) * chunk2size ≤ length chunk)%nat →
  length (mill_bytes chunk i) = mill_size.
Proof.
  intros H. unfold mill_bytes, slice_from. rewrite length_slice, length_drop.
  unfold chunk2size, mill_size in *. lia.
Qed.

Lemma mill_short (host : byteorder) (chunk : list byte) (i : nat)
    (acc : list float * list float) :
  (length chunk < 16 + (i + 1) * chunk2size)%nat →
  mill host (slice_from 16 chunk) i acc = Raise StructError.
Proof.
  intros H. unfold mill. destruct acc as [counts values].
  rewrite unpack_mill_short; [reflexivity|].
  unfold slice_from. rewrite length_slice, length_drop.
  unfold chunk2size, mill_size in *. lia.
Qed.

(** On a complete sub-record the body of the [for] loop reads the mode from
    byte 1, the address from byte 0 and the samples from bytes 10..109. *)
Lemma mill_full (host : byteorder) (chunk : list byte) (i : nat)
    (counts values : list float) :
  (16 + (i + 1) * chunk2size ≤ length chunk)%nat →
  mill host (slice_from 16 chunk) i (counts, values) =
    if negb (mill_mode chunk i =? 1) then Ok (counts, values)
    else values' ← iadd values (mill_address chunk i - 1)
                        (mean (mill_samples host chunk i));
         counts' ← iadd counts (mill_address chunk i - 1) PrimFloat.one;
         Ok (counts', values').
Proof.
  intros H. unfold mill, mill_mode, mill_address, mill_samples.
  fold (mill_bytes chunk i).
  rewrite unpack_mill_full by (by apply length_mill_bytes).
  reflexivity.
Qed.

Lemma iteration_nonempty (host : byteorder) (st : state) (chunk : list byte) :
  chunk ≠ [] →
  iteration host st chunk =
    (t ← chunk_time chunk;
     '(counts', values') ← mills host chunk (entry st);
     Ok (tick st t counts' values')).
Proof. intros H. destruct chunk; [contradiction | reflexivity]. Qed.

Lemma iteration_empty (host : byteorder) (st : state) :
  iteration host st [] = Ok Break.
Proof. reflexivity. Qed.

(** A record that stops before the end of its 34th sub-record (byte 3824)
    cannot be unpacked. *)
Lemma mills_short (host : byteorder) (chunk : list byte) (acc : list float * list float) :
  (length chunk < 16 + n_mills * chunk2size)%nat →
  ∃ e, mills host chunk acc = Raise e.
Proof.
  intros H. unfold mills.
  apply (for_each_raises _ _ ((length chunk - 16) / chunk2size)%nat).
  - apply elem_of_seq. unfold n_mills, chunk2size in *.
    pose proof (Nat.div_mod_eq (length chunk - 16) 112).
    pose proof (Nat.mod_upper_bound (length chunk - 16) 112). lia.
  - intros s'. exists StructError. apply mill_short.
    unfold chunk2size in *.
    pose proof (Nat.div_mod_eq (length chunk - 16) 112).
    pose proof (Nat.mod_upper_bound (length chunk - 16) 112). lia.
Qed.

Lemma mill_Ok_inv (host : byteorder) (chunk2 : list byte) (i : nat)
    (c v c' v' : list float) :
  mill host chunk2 i (c, v) = Ok (c', v') →
  (c' = c ∧ v' = v) ∨
  ∃ k1 k2 x, c' = alter (fun y => PrimFloat.add y PrimFloat.one) k1 c ∧
             v' = alter (fun y => PrimFloat.add y x) k2 v.
Proof.
  unfold mill. intros H.
  apply bind_Ok_inv in H as (x & _ & H).
  destruct (negb (nth 1 x 0 =? 1)).
  - injection H as <- <-. by left.
  - apply bind_Ok_inv in H as (v1 & Hv & H).
    apply bind_Ok_inv in H as (c1 & Hc & H).
    injection H as <- <-.
    unfold iadd in Hv, Hc.
    destruct (Py.index (length v) _) as [k2|]; [|discriminate].
    destruct (Py.index (length c) _) as [k1|]; [|discriminate].
    simpl in Hv, Hc. injection Hv as <-. injection Hc as <-.
    right. by exists k1, k2, (mean (drop 3 x)).
Qed.

Lemma is_count_mono (m m' : nat) (c : float) :
  (m ≤ m')%nat → is_count m c → is_count m' c.
Proof. intros Hm (n & Hn & ->). exists n. split; [lia | reflexivity]. Qed.

Lemma is_count_succ (m : nat) (c : float) :
  is_count m c → is_count (S m) (PrimFloat.add c PrimFloat.one).
Proof. intros (n & Hn & ->). exists (S n). split; [lia | reflexivity]. Qed.

Lemma Forall_count_alter (m k : nat) (c : list float) :
  Forall (is_count m) c →
  Forall (is_count (S m)) (alter (fun y => PrimFloat.add y PrimFloat.one) k c).
Proof.
  intros H. apply Forall_lookup. intros j y Hj.
  rewrite list_lookup_alter in Hj. destruct (decide (k = j)) as [->|_].
  - destruct (c !! j) as [y0|] eqn:E; [|discriminate].
    injection Hj as <-. apply is_count_succ. by eapply Forall_lookup_1.
  - apply (is_count_mono m); [lia|]. by eapply Forall_lookup_1.
Qed.

(** One pass of the [for] body keeps the lengths of both lists and
    increments at most one count. *)
Lemma mill_preserves (host : byteorder) (chunk2 : list byte) (i m : nat)
    (c v c' v' : list float) :
  mill host chunk2 i (c, v) = Ok (c', v') →
  Forall (is_count m) c →
  length c' = length c ∧ length v' = length v ∧ Forall (is_count (S m)) c'.
Proof.
  intros H Hc. apply mill_Ok_inv in H as [[-> ->] | (k1 & k2 & x & -> & ->)].
  - split; [reflexivity|]. split; [reflexivity|].
    eapply Forall_impl; [exact Hc|]. intros y. apply is_count_mono. lia.
  - rewrite !length_alter. split; [reflexivity|]. split; [reflexivity|].
    by apply Forall_count_alter.
Qed.

Lemma for_each_mill_preserves (host : byteorder) (chunk2 : list byte) (ixs : list nat)
    (m : nat) (c v c' v' : list float) :
  for_each (mill host chunk2) ixs (c, v) = Ok (c', v') →
  Forall (is_count m) c →
  length c' = length c ∧ length v' = length v ∧ Forall (is_count (m + length ixs)) c'.
Proof.
  revert m c v. induction ixs as [|i ixs IH]; intros m c v H Hc.
  - injection H as <- <-. rewrite Nat.add_0_r. done.
  - cbn [for_each] in H. change (Py.bind ?a ?k) with (a ≫= k) in H.
    apply bind_Ok_inv in H as ([c1 v1] & H1 & H).
    destruct (mill_preserves _ _ _ _ _ _ _ _ H1 Hc) as (Lc & Lv & Hc1).
    destruct (IH _ _ _ H Hc1) as (Lc' & Lv' & Hc').
    rewrite Lc', Lv', Lc, Lv. repeat split.
    cbn [length]. by replace (m + S (length ixs))%nat with (S m + length ixs)%nat by lia.
Qed.

(** ** The loop invariant *)

Lemma invariant_start : invariant start.
Proof.
  repeat split; try done.
  apply Forall_forall. intros c Hc. apply elem_of_replicate in Hc as [-> _].
  by exists 0%nat.
Qed.

Lemma iteration_Next_inv (host : byteorder) (st st' : state) (chunk : list byte)
    (out : option row) :
  iteration host st chunk = Ok (Next st' out) →
  ∃ t counts' values',
    chunk ≠ [] ∧ chunk_time chunk = Ok t ∧
    mills host chunk (entry st) = Ok (counts', values') ∧
    tick st t counts' values' = Next st' out.
Proof.
  intros H. destruct chunk as [|b chunk]; [discriminate|].
  rewrite iteration_nonempty in H by done.
  apply bind_Ok_inv in H as (t & Ht & H).
  apply bind_Ok_inv in H as ([c' v'] & Hm & H).
  injection H as H. by exists t, c', v'.
Qed.

Lemma invariant_step (host : byteorder) (st st' : state) (chunk : list byte)
    (out : option row) :
  invariant st → iteration host st chunk = Ok (Next st' out) → invariant st'.
Proof.
  intros (Hsc & Lc & Lv & Hc) H.
  apply iteration_Next_inv in H as (t & c' & v' & _ & _ & Hm & Ht).
  unfold mills in Hm. destruct (entry st) as [c v] eqn:E. simpl in Lc, Lv, Hc.
  destruct (for_each_mill_preserves _ _ _ _ _ _ _ _ Hm Hc) as (Lc' & Lv' & Hc').
  unfold tick in Ht.
  destruct (Z.eqb_spec (second_count st + 1) 60) as [E60|E60]; injection Ht as <- _.
  - apply invariant_start.
  - unfold invariant, entry. cbn [second_count mill_counts mill_values].
    destruct (Z.eqb_spec (second_count st + 1) 0) as [?|_]; [lia|]. cbn [fst snd].
    rewrite Lc', Lv'. repeat split; try lia; try done.
    eapply Forall_impl; [exact Hc'|]. intros y. apply is_count_mono.
    rewrite length_seq. unfold n_mills. lia.
Qed.

Lemma reachable_invariant (host : byteorder) (st : state) :
  reachable host st → invariant st.
Proof.
  induction 1 as [|st chunk st' out _ IH H]; [apply invariant_start|].
  by eapply invariant_step.
Qed.

(** ** Records whose addresses stay in range *)

Lemma index_slot (a : Z) : 0 ≤ a ≤ 34 → Py.index n_mills (a - 1) = Ok (slot a).
Proof.
  intros H. unfold slot. destruct (Z.eqb_spec a 0) as [->|Ha]; [reflexivity|].
  apply index_in_range. unfold n_mills. lia.
Qed.

Lemma slot_lt (a : Z) : 0 ≤ a ≤ 34 → (slot a < n_mills)%nat.
Proof.
  intros H. unfold slot, n_mills. destruct (Z.eqb_spec a 0); lia.
Qed.

Lemma addresses_in_range_spec (chunk : list byte) (i : nat) :
  addresses_in_range chunk = true → (i < n_mills)%nat →
  mill_mode chunk i = 1 → 0 ≤ mill_address chunk i ≤ 34.
Proof.
  intros H Hi Hm. unfold addresses_in_range in H.
  rewrite forallb_forall in H.
  assert (Hin : In i (seq 0 n_mills)) by (apply in_seq; lia).
  apply H in Hin. rewrite Hm in Hin.
  split; [apply u8_range | by apply Z.leb_le].
Qed.

Lemma mill_in_range (host : byteorder) (chunk : list byte) (i : nat)
    (c v : list float) :
  (16 + (i + 1) * chunk2size ≤ length chunk)%nat →
  length c = n_mills → length v = n_mills →
  (mill_mode chunk i = 1 → 0 ≤ mill_address chunk i ≤ 34) →
  mill host (slice_from 16 chunk) i (c, v) = Ok (fold_mill host chunk (c, v) i).
Proof.
  intros Hlen Lc Lv Ha. rewrite mill_full by done. unfold fold_mill.
  destruct (Z.eqb_spec (mill_mode chunk i) 1) as [Hm|Hm]; [|reflexivity].
  cbn [negb fst snd]. unfold iadd. rewrite Lc, Lv, (index_slot _ (Ha Hm)).
  reflexivity.
Qed.

Lemma fold_mill_length (host : byteorder) (chunk : list byte) (i : nat)
    (acc : list float * list float) :
  length (fold_mill host chunk acc i).1 = length acc.1 ∧
  length (fold_mill host chunk acc i).2 = length acc.2.
Proof.
  unfold fold_mill. destruct (mill_mode chunk i =? 1); [|done].
  cbn [fst snd]. by rewrite !length_alter.
Qed.

Lemma for_each_mill_in_range (host : byteorder) (chunk : list byte) (ixs : list nat)
    (acc : list float * list float) :
  (16 + n_mills * chunk2size ≤ length chunk)%nat →
  addresses_in_range chunk = true →
  Forall (fun i => (i < n_mills)%nat) ixs →
  length acc.1 = n_mills → length acc.2 = n_mills →
  for_each (mill host (slice_from 16 chunk)) ixs acc
    = Ok (fold_left (fold_mill host chunk) ixs acc).
Proof.
  intros Hlen Hr Hix. revert acc.
  induction Hix as [|i ixs Hi _ IH]; intros [c v] Lc Lv; [reflexivity|].
  cbn [for_each fold_left fst snd] in *.
  rewrite mill_in_range; try done.
  - cbn [Py.bind]. destruct (fold_mill_length host chunk i (c, v)) as [L1 L2].
    apply IH; cbn [fst snd] in *; congruence.
  - unfold n_mills, chunk2size in *. lia.
  - by apply addresses_in_range_spec.
Qed.

Lemma mills_in_range (host : byteorder) (chunk : list byte)
    (acc : list float * list float) :
  (16 + n_mills * chunk2size ≤ length chunk)%nat →
  addresses_in_range chunk = true →
  length acc.1 = n_mills → length acc.2 = n_mills →
  mills host chunk acc = Ok (fold_left (fold_mill host chunk) (seq 0 n_mills) acc).
Proof.
  intros. apply for_each_mill_in_range; try done.
  apply Forall_forall. intros i Hi. apply elem_of_seq in Hi. lia.
Qed.

(** A record of at least 3824 bytes with addresses in range is counted. *)
Lemma iteration_in_range (host : byteorder) (st : state) (chunk : list byte) :
  invariant st →
  (16 + n_mills * chunk2size ≤ length chunk)%nat →
  addresses_in_range chunk = true →
  iteration host st chunk =
    Ok (let acc := fold_left (fold_mill host chunk) (seq 0 n_mills) (entry st) in
        tick st (label chunk) acc.1 acc.2).
Proof.
  intros (_ & Lc & Lv & _) Hlen Hr.
  rewrite iteration_nonempty.
  - rewrite chunk_time_long by (unfold n_mills, chunk2size in Hlen; lia).
    rewrite bind_Ok, mills_in_range by done.
    rewrite bind_Ok. by destruct (fold_left _ _ _).
  - intros ->. unfold n_mills, chunk2size in Hlen. simpl in Hlen. lia.
Qed.

(** ** The loop terminates *)

Lemma chunksize_pos : (0 < chunksize)%nat.
Proof. unfold chunksize. lia. Qed.

Lemma while_true_enough (fuel : nat) (host : byteorder) (st : state) (f : list byte)
    (written : list row) :
  (length f < fuel)%nat → ∃ r, while_true fuel host st f written = Some r.
Proof.
  revert st f written. induction fuel as [|fuel IH]; intros st f written H; [lia|].
  cbn [while_true].
  destruct (iteration host st (take chunksize f)) as [[|st' out]|e] eqn:E; eauto.
  apply IH. rewrite length_drop.
  destruct f as [|b f]; [by rewrite take_nil in E|].
  pose proof chunksize_pos. cbn [length] in *. lia.
Qed.

(** [translate_KSC] always comes to an end: it returns or it raises. *)
Lemma translate_KSC_total (host : byteorder) (infile : list byte) :
  ∃ written how, translate_KSC host infile = Some (written, how).
Proof.
  destruct (while_true_enough (S (length infile)) host start infile []) as [[w h] H];
    [lia|]. by exists w, h.
Qed.

(** A file made of whole records is read record by record. *)
Lemma while_true_concat (fuel : nat) (host : byteorder) (st : state)
    (chunks : list (list byte)) (written : list row) :
  Forall (fun chunk => length chunk = chunksize) chunks →
  (length chunks < fuel)%nat →
  while_true fuel host st (concat chunks) written = Some (feed host st chunks written).
Proof.
  intros Hfull. revert fuel st written.
  induction Hfull as [|chunk chunks Hlen _ IH]; intros fuel st written Hfuel.
  - destruct fuel as [|fuel]; [cbn [length] in Hfuel; lia|].
    cbn [while_true concat feed]. by rewrite take_nil.
  - destruct fuel as [|fuel]; [lia|].
    cbn [while_true concat feed].
    rewrite take_app_length', drop_app_length' by done.
    destruct (iteration host st chunk) as [[|st' out]|e]; try reflexivity.
    apply IH. cbn [length] in Hfuel. lia.
Qed.

Lemma length_concat_full (chunks : list (list byte)) :
  Forall (fun chunk => length chunk = chunksize) chunks →
  (length chunks ≤ length (concat chunks))%nat.
Proof.
  induction 1 as [|chunk chunks Hlen _ IH]; [done|].
  cbn [concat length]. rewrite length_app, Hlen. pose proof chunksize_pos. lia.
Qed.

Lemma translate_KSC_feed (host : byteorder) (chunks : list (list byte)) :
  Forall (fun chunk => length chunk = chunksize) chunks →
  translate_KSC host (concat chunks) = Some (feed host start chunks []).
Proof.
  intros H. apply while_true_concat; [done|].
  pose proof (length_concat_full _ H). lia.
Qed.

(** ** Records of the wrong size *)

(** C1, as the code has it: [translate_KSC] never compares the size of a
    read with 7184. A read of 1 to 3823 bytes makes the pass raise
    ([struct.error] from the unpacking that runs out of bytes, or the
    [IndexError] of an earlier sub-record): the pass yields no state and
    no row, so nothing is counted. *)
Theorem short_record_raises (host : byteorder) (st : state) (chunk : list byte) :
  (0 < length chunk < 16 + n_mills * chunk2size)%nat →
  ∃ e, iteration host st chunk = Raise e.
Proof.
  intros [Hpos Hlen]. rewrite iteration_nonempty by (intros ->; simpl in Hpos; lia).
  destruct (chunk_time chunk) as [t|e]; [|by exists e].
  rewrite bind_Ok.
  destruct (mills_short host chunk (entry st) Hlen) as [e ->]. by exists e.
Qed.

Lemma short_record_raises_witness :
  ∃ e, iteration little start (take 100 (record x60 [])) = Raise e.
Proof.
  apply short_record_raises.
  split; apply Nat.ltb_lt; vm_compute; reflexivity.
Defined.

(** C1 does not hold as stated: a read of 3824 bytes is not 7184 bytes
    long, yet it is unpacked and counted like a whole record. *)
Lemma truncated_record_is_counted :
  length truncated_record ≠ chunksize ∧
  iteration little start truncated_record =
    Ok (Next {| second_count := 1; mill_counts := fresh; mill_values := fresh;
                time := "1996-12-31 23:59" |} None).
Proof.
  split; [apply Nat.eqb_neq|]; vm_compute; reflexivity.
Qed.

(** ** Exceptions on whole records *)

Lemma for_each_mill_stray (host : byteorder) (chunk : list byte) (ixs : list nat)
    (acc : list float * list float) :
  (16 + n_mills * chunk2size ≤ length chunk)%nat →
  Forall (fun i => (i < n_mills)%nat) ixs →
  Exists (fun i => mill_mode chunk i = 1 ∧ 34 < mill_address chunk i) ixs →
  length acc.1 = n_mills → length acc.2 = n_mills →
  for_each (mill host (slice_from 16 chunk)) ixs acc = Raise IndexError.
Proof.
  intros Hlen Hix. revert acc.
  induction Hix as [|i ixs Hi _ IH]; intros [c v] Hex Lc Lv; [by inversion Hex|].
  cbn [for_each fst snd] in *.
  assert (Hi' : (16 + (i + 1) * chunk2size ≤ length chunk)%nat)
    by (unfold n_mills, chunk2size in *; lia).
  destruct (Z.eqb_spec (mill_mode chunk i) 1) as [Hm|Hm].
  - destruct (Z.le_gt_cases (mill_address chunk i) 34) as [Ha|Ha].
    + rewrite mill_in_range; try done.
      * cbn [Py.bind]. destruct (fold_mill_length host chunk i (c, v)) as [L1 L2].
        apply IH; cbn [fst snd] in *; try congruence.
        apply Exists_cons in Hex as [[_ ?]|Hex]; [lia | done].
      * intros _. split; [apply u8_range | done].
    + rewrite mill_full by done. rewrite Hm. cbn [Z.eqb Pos.eqb negb].
      unfold iadd. rewrite Lc, Lv, index_out_of_range; [reflexivity|].
      unfold n_mills. lia.
  - rewrite mill_in_range by done.
    cbn [Py.bind]. destruct (fold_mill_length host chunk i (c, v)) as [L1 L2].
    apply IH; cbn [fst snd] in *; try congruence.
    apply Exists_cons in Hex as [[? _]|Hex]; [contradiction | done].
Qed.

Lemma addresses_out_of_range (chunk : list byte) :
  addresses_in_range chunk = false →
  Exists (fun i => mill_mode chunk i = 1 ∧ 34 < mill_address chunk i) (seq 0 n_mills).
Proof.
  unfold addresses_in_range. generalize (seq 0 n_mills) as ixs.
  induction ixs as [|i ixs IH]; [discriminate|].
  cbn [forallb]. intros H. apply andb_false_iff in H as [H|H].
  - apply Exists_cons_hd.
    destruct (Z.eqb_spec (mill_mode chunk i) 1) as [Hm|]; [|discriminate].
    split; [done|]. cbn [implb] in H. by apply Z.leb_gt.
  - apply Exists_cons_tl. by apply IH.
Qed.

(** C2, as the code has it: on a whole record the pass goes through
    without an exception exactly when every sub-record with mode 1 has an
    address between 0 and 34; an address of 35 or more makes
    [mill_values[address-1]] raise [IndexError]. *)
Theorem whole_record_outcome (host : byteorder) (st : state) (chunk : list byte) :
  reachable host st → length chunk = chunksize →
  (addresses_in_range chunk = true → ∃ st' out, iteration host st chunk = Ok (Next st' out)) ∧
  (addresses_in_range chunk = false → iteration host st chunk = Raise IndexError).
Proof.
  intros Hst Hlen. apply reachable_invariant in Hst.
  assert (Hlen' : (16 + n_mills * chunk2size ≤ length chunk)%nat)
    by (rewrite Hlen; unfold chunksize, n_mills, chunk2size; lia).
  split; intros Hr.
  - rewrite iteration_in_range by done. unfold tick. cbn zeta.
    destruct (_ =? 60); eauto.
  - destruct Hst as (_ & Lc & Lv & _).
    rewrite iteration_nonempty
      by (intros ->; unfold n_mills, chunk2size in Hlen'; simpl in Hlen'; lia).
    rewrite chunk_time_long by (unfold n_mills, chunk2size in Hlen'; lia).
    rewrite bind_Ok. unfold mills.
    rewrite for_each_mill_stray; try done.
    + apply Forall_forall. intros i Hi. apply elem_of_seq in Hi. lia.
    + by apply addresses_out_of_range.
Qed.

Lemma whole_record_outcome_witness :
  (addresses_in_range (record x60 (mill_record x22 x01 x00 x01)) = true →
   ∃ st' out,
     iteration little start (record x60 (mill_record x22 x01 x00 x01)) = Ok (Next st' out)) ∧
  (addresses_in_range (record x60 (mill_record x22 x01 x00 x01)) = false →
   iteration little start (record x60 (mill_record x22 x01 x00 x01)) = Raise IndexError).
Proof.
  apply whole_record_outcome; [apply reachable_start | vm_compute; reflexivity].
Defined.

(** C2 does not hold as stated: this record has exactly 7184 bytes and
    the pass over it raises. *)
Lemma stray_address_raises :
  length stray_address_record = chunksize ∧
  iteration little start stray_address_record = Raise IndexError.
Proof. split; vm_compute; reflexivity. Qed.

(** ** The year *)

(** Every year the code can compute has four digits, so the zero fill of
    [{0:04d}] adds nothing and the label starts with the year itself. *)
Lemma year_four_digits (b : byte) :
  format_0d 4 (full_year (u8 b)) = digits (full_year (u8 b)) ∧
  String.length (digits (full_year (u8 b))) = 4%nat.
Proof. destruct b; split; vm_compute; reflexivity. Qed.

(** C5, as the code has it: the year field [yy] (byte 4 of the record)
    becomes 2000+yy below 90 and 1900+yy from 90 on, and that four-digit
    year opens the label; 96 gives 1996, 10 gives 2010, 90 gives 1990 and
    89, being below the pivot, gives 2089. *)
Theorem year_of_record (chunk : list byte) :
  (10 ≤ length chunk)%nat →
  let yy := u8 (nth 4 chunk x00) in
  (∃ rest, chunk_time chunk = Ok (digits (full_year yy) ++ rest)%string) ∧
  String.length (digits (full_year yy)) = 4%nat ∧
  (yy < 90 → full_year yy = 2000 + yy) ∧
  (90 ≤ yy → full_year yy = 1900 + yy) ∧
  full_year 96 = 1996 ∧ full_year 10 = 2010 ∧ full_year 89 = 2089 ∧ full_year 90 = 1990.
Proof.
  intros Hlen yy.
  destruct (year_four_digits (nth 4 chunk x00)) as [Hfmt Hdig]. fold yy in Hfmt, Hdig.
  split; [|split; [exact Hdig|]].
  - rewrite chunk_time_long by done. unfold label, format_time. fold yy.
    rewrite Hfmt. eauto.
  - unfold full_year.
    repeat split; try reflexivity; intros H.
    + destruct (Z.ltb_spec yy 90); lia.
    + destruct (Z.ltb_spec yy 90); lia.
Qed.

Lemma year_of_record_witness :
  (∃ rest, chunk_time (record x59 []) = Ok (digits (full_year 89) ++ rest)%string) ∧
  String.length (digits (full_year 89)) = 4%nat ∧
  (89 < 90 → full_year 89 = 2000 + 89) ∧
  (90 ≤ 89 → full_year 89 = 1900 + 89) ∧
  full_year 96 = 1996 ∧ full_year 10 = 2010 ∧ full_year 89 = 2089 ∧ full_year 90 = 1990.
Proof.
  apply (year_of_record (record x59 [])).
  apply Nat.leb_le. vm_compute. reflexivity.
Defined.

(** C5 does not hold as stated: the year field 89 does not come out as
    1989. *)
Lemma year_89_is_2089 :
  u8 (nth 4 (record x59 []) x00) = 89 ∧
  full_year 89 = 2089 ∧ full_year 89 ≠ 1989 ∧
  chunk_time (record x59 []) = Ok "2089-12-31 23:59"%string.
Proof. repeat split; try (vm_compute; reflexivity). vm_compute. discriminate. Qed.

(** ** Sub-records that are not in mode 1 *)

Lemma skip_invalid_mode (host : byteorder) (chunk : list byte) (i : nat)
    (acc : list float * list float) :
  (16 + (i + 1) * chunk2size ≤ length chunk)%nat →
  mill_mode chunk i ≠ 1 →
  mill host (slice_from 16 chunk) i acc = Ok acc.
Proof.
  intros Hlen Hm. destruct acc as [c v]. rewrite mill_full by done.
  by destruct (Z.eqb_spec (mill_mode chunk i) 1).
Qed.

(** C6: a sub-record whose mode byte is not 1 leaves both lists exactly as
    they were, whatever its address and samples: nothing is added to any
    sum or count and no exception is raised. *)
Theorem invalid_mode_is_skipped (host : byteorder) (chunk : list byte) (i : nat)
    (counts values : list float) :
  (16 + (i + 1) * chunk2size ≤ length chunk)%nat →
  mill_mode chunk i ≠ 1 →
  mill host (slice_from 16 chunk) i (counts, values) = Ok (counts, values).
Proof.
  intros Hlen Hm. rewrite mill_full by done.
  destruct (Z.eqb_spec (mill_mode chunk i) 1) as [Hone|_]; [|reflexivity].
  contradiction.
Qed.

Lemma invalid_mode_is_skipped_witness :
  mill little (slice_from 16 (record x60 (mill_record x23 x00 xff x7f))) 0 (fresh, fresh)
    = Ok (fresh, fresh).
Proof.
  apply invalid_mode_is_skipped.
  - apply Nat.leb_le. vm_compute. reflexivity.
  - vm_compute. discriminate.
Defined.

(** A record in which no sub-record is in mode 1 changes nothing at all. *)
Lemma all_invalid_record (host : byteorder) (chunk : list byte)
    (acc : list float * list float) :
  (16 + n_mills * chunk2size ≤ length chunk)%nat →
  (∀ i, (i < n_mills)%nat → mill_mode chunk i ≠ 1) →
  mills host chunk acc = Ok acc.
Proof.
  intros Hlen Hm. unfold mills.
  assert (Hix : Forall (fun i => (i < n_mills)%nat) (seq 0 n_mills))
    by (apply Forall_forall; intros i Hi; apply elem_of_seq in Hi; lia).
  induction Hix as [|i ixs Hi _ IH]; [reflexivity|].
  cbn [for_each]. destruct acc as [c v].
  rewrite skip_invalid_mode; [exact IH | | by apply Hm].
  unfold n_mills, chunk2size in *. lia.
Qed.

(** ** Closing a window *)

(** Counts stay far below 2^53, where adding one is exact: every count of
    1 to 2040 increments (34 sub-records in each of 60 records) compares
    greater than zero. *)
Lemma count_of_positive (n : nat) :
  (1 ≤ n ≤ 2040)%nat → PrimFloat.ltb PrimFloat.zero (count_of n) = true.
Proof.
  intros H.
  assert (T : forallb (fun k => PrimFloat.ltb PrimFloat.zero (count_of (S k)))
                      (seq 0 2040) = true) by (vm_compute; reflexivity).
  rewrite forallb_forall in T.
  destruct n as [|k]; [lia|]. apply T, in_seq. lia.
Qed.


Lemma averages_length (counts values : list float) :
  length (averages counts values) = length values.
Proof. unfold averages. by rewrite length_fmap, length_seq. Qed.

Lemma averages_lookup (counts values : list float) (i : nat) :
  (i < length values)%nat →
  averages counts values !! i =
    Some (if PrimFloat.ltb PrimFloat.zero (get counts i)
          then PrimFloat.div (get values i) (get counts i)
          else PrimFloat.nan).
Proof.
  intros H. unfold averages. by rewrite list_lookup_fmap, lookup_seq_lt.
Qed.

(** A pass that finds the counter at 0 does not look at the old lists. *)
Lemma iteration_fresh (host : byteorder) (st : state) (chunk : list byte) :
  second_count st = 0 → iteration host st chunk = iteration host start chunk.
Proof.
  intros H. unfold iteration, entry, tick. rewrite H. reflexivity.
Qed.


Lemma reachable_state_after (host : byteorder) (chunks : list (list byte))
    (st st' : state) :
  reachable host st → state_after host st chunks = Some st' → reachable host st'.
Proof.
  revert st. induction chunks as [|chunk rest IH]; intros st Hst H.
  - by injection H as <-.
  - cbn [state_after] in H.
    destruct (iteration host st chunk) as [[|st1 out]|e] eqn:E; try discriminate.
    eapply IH; [|exact H]. by eapply reachable_next.
Qed.

Lemma reachable_state_after_59 : reachable little state_after_59.
Proof.
  apply (reachable_state_after little (replicate 59 station5_record) start).
  - apply reachable_start.
  - vm_compute. reflexivity.
Qed.


(** ** Whole files *)

Lemma feed_written (host : byteorder) (chunks : list (list byte)) (st : state)
    (written : list row) :
  feed host st chunks written =
    (written ++ (feed host st chunks []).1, (feed host st chunks []).2).
Proof.
  revert st written. induction chunks as [|chunk rest IH]; intros st written.
  - cbn [feed fst snd]. by rewrite app_nil_r.
  - cbn [feed]. destruct (iteration host st chunk) as [[|st' out]|e];
      cbn [fst snd]; try (by rewrite app_nil_r).
    rewrite (IH st' (written ++ _)), (IH st' ([] ++ _)). cbn [fst snd app].
    by rewrite <- app_assoc.
Qed.

Lemma tick_counter (st st' : state) (t : string) (c v : list float) (out : option row) :
  0 ≤ second_count st < 60 → tick st t c v = Next st' out →
  (second_count st = 59 ∧ second_count st' = 0 ∧ out = Some (t, averages c v)) ∨
  (second_count st < 59 ∧ second_count st' = second_count st + 1 ∧ out = None).
Proof.
  intros Hsc Ht. unfold tick in Ht.
  destruct (Z.eqb_spec (second_count st + 1) 60); injection Ht as <- <-;
    cbn [second_count]; [left | right]; repeat split; lia.
Qed.

(** With addresses in range, whole records give one row for every 60. *)
Lemma feed_count (host : byteorder) (chunks : list (list byte)) (st : state) :
  invariant st →
  Forall (fun chunk => length chunk = chunksize ∧ addresses_in_range chunk = true) chunks →
  ∃ new, feed host st chunks [] = (new, Returned) ∧
         length new = ((Z.to_nat (second_count st) + length chunks) / 60)%nat.
Proof.
  intros Hst Hall. revert st Hst.
  induction Hall as [|chunk rest [Hlen Hr] _ IH]; intros st Hst.
  - exists []. split; [reflexivity|]. cbn [length].
    destruct Hst as (Hsc & _). symmetry. apply Nat.div_small. lia.
  - assert (Hlen' : (16 + n_mills * chunk2size ≤ length chunk)%nat)
      by (rewrite Hlen; unfold chunksize, n_mills, chunk2size; lia).
    pose proof (iteration_in_range host st chunk Hst Hlen' Hr) as Hit.
    cbn zeta in Hit.
    destruct (tick st _ _ _) as [|st' out] eqn:Ht;
      [unfold tick in Ht; by destruct (_ =? 60)|].
    pose proof (invariant_step _ _ _ _ _ Hst Hit) as Hst'.
    destruct (IH st' Hst') as (new & Hnew & Hcount).
    cbn [feed]. rewrite Hit, feed_written, Hnew. cbn [fst snd app].
    eexists. split; [reflexivity|].
    destruct Hst as (Hsc & _).
    destruct (tick_counter _ _ _ _ _ _ Hsc Ht) as [(H59 & H0 & ->) | (H58 & Hs & ->)].
    + cbn [length app]. rewrite Hcount, H0, H59.
      replace (Z.to_nat 59 + S (length rest))%nat with (1 * 60 + length rest)%nat by lia.
      rewrite Nat.div_add_l by lia.
      replace (Z.to_nat 0 + length rest)%nat with (length rest) by lia. lia.
    + cbn [length app]. rewrite Hcount, Hs. f_equal. lia.
Qed.


Lemma Forall_whole (chunks : list (list byte)) :
  forallb (fun chunk => Nat.eqb (length chunk) chunksize) chunks = true →
  Forall (fun chunk => length chunk = chunksize) chunks.
Proof.
  intros H. apply Forall_forall. intros chunk Hin.
  rewrite forallb_forall in H. apply Nat.eqb_eq, H. by apply list_elem_of_In.
Qed.

Lemma Forall_whole_in_range (chunks : list (list byte)) :
  forallb (fun chunk => Nat.eqb (length chunk) chunksize && addresses_in_range chunk)
          chunks = true →
  Forall (fun chunk => length chunk = chunksize ∧ addresses_in_range chunk = true) chunks.
Proof.
  intros H. apply Forall_forall. intros chunk Hin.
  rewrite forallb_forall in H. apply list_elem_of_In, H, andb_true_iff in Hin as [H1 H2].
  split; [by apply Nat.eqb_eq | done].
Qed.

(** C7, as the code has it: a file of [n] whole records in which every
    sub-record with mode 1 has an address between 0 and 34 is read to its
    end and gives exactly [n / 60] rows; the records after the last full
    group of 60 give none. *)
Theorem one_row_per_sixty_records (host : byteorder) (chunks : list (list byte)) :
  Forall (fun chunk => length chunk = chunksize ∧ addresses_in_range chunk = true) chunks →
  ∃ rows, translate_KSC host (concat chunks) = Some (rows, Returned) ∧
          length rows = (length chunks / 60)%nat.
Proof.
  intros H.
  rewrite translate_KSC_feed by (eapply Forall_impl; [exact H | by intros ? [? _]]).
  destruct (feed_count host chunks start invariant_start H) as (rows & -> & Hlen).
  exists rows. split; [reflexivity|]. exact Hlen.
Qed.

Lemma one_row_per_sixty_records_witness :
  ∃ rows, translate_KSC little (concat (replicate 125 station5_record)) = Some (rows, Returned) ∧
          length rows = (length (replicate 125 station5_record) / 60)%nat.
Proof.
  apply one_row_per_sixty_records, Forall_whole_in_range.
  vm_compute. reflexivity.
Defined.

(** C7 does not hold as stated: these are 60 whole records, and no row is
    written, because the last of them makes the pass raise. *)
Lemma stray_address_loses_the_row :
  Forall (fun chunk => length chunk = chunksize) sixty_with_stray ∧
  (length sixty_with_stray / 60)%nat = 1%nat ∧
  translate_KSC little (concat sixty_with_stray) = Some ([], Raised IndexError).
Proof.
  split; [apply Forall_whole|split]; vm_compute; reflexivity.
Qed.

(** ** The label of a row *)

Lemma two_digits (b : byte) :
  u8 b < 100 → String.length (format_0d 2 (u8 b)) = 2%nat.
Proof. destruct b; vm_compute; (reflexivity || discriminate). Qed.

Lemma length_append (s1 s2 : string) :
  String.length (s1 ++ s2) = (String.length s1 + String.length s2)%nat.
Proof. induction s1 as [|a s1 IH]; [reflexivity|]. cbn. by rewrite IH. Qed.

(** With month, day, hour and minute below 100 the label is the 16
    characters of [YYYY-MM-DD HH:MM]. *)
Lemma label_length (chunk : list byte) :
  u8 (nth 5 chunk x00) < 100 → u8 (nth 6 chunk x00) < 100 →
  u8 (nth 7 chunk x00) < 100 → u8 (nth 8 chunk x00) < 100 →
  String.length (label chunk) = 16%nat.
Proof.
  intros Hmo Hd Hh Hmi. unfold label, format_time.
  destruct (year_four_digits (nth 4 chunk x00)) as [-> Hy].
  rewrite !length_append, Hy, !two_digits by done. reflexivity.
Qed.



(** ** Which sum a sub-record goes to *)

Lemma get_alter (f : float → float) (l : list float) (j k : nat) :
  (k < length l)%nat →
  get (alter f j l) k = if decide (j = k) then f (get l k) else get l k.
Proof.
  intros Hk. unfold get. rewrite list_lookup_alter.
  destruct (decide (j = k)) as [->|_]; [|reflexivity].
  destruct (lookup_lt_is_Some_2 l k Hk) as [x ->]. reflexivity.
Qed.

Lemma fold_mill_slots (host : byteorder) (chunk : list byte) (ixs : list nat)
    (acc : list float * list float) (k : nat) :
  (k < length acc.1)%nat → (k < length acc.2)%nat →
  let P := fun i => mill_mode chunk i = 1 ∧ slot (mill_address chunk i) = k in
  let acc' := fold_left (fold_mill host chunk) ixs acc in
  get acc'.1 k
    = fold_left (fun c _ => PrimFloat.add c PrimFloat.one) (filter P ixs) (get acc.1 k) ∧
  get acc'.2 k
    = fold_left (fun v i => PrimFloat.add v (mean (mill_samples host chunk i)))
                (filter P ixs) (get acc.2 k).
Proof.
  intros H1 H2 P. revert acc H1 H2.
  induction ixs as [|i ixs IH]; intros acc H1 H2; [done|].
  cbn [fold_left]. rewrite filter_cons.
  destruct (fold_mill_length host chunk i acc) as [L1 L2].
  destruct (IH (fold_mill host chunk acc i)) as [IH1 IH2]; [lia | lia |].
  cbn zeta in *. rewrite IH1, IH2. clear IH IH1 IH2 L1 L2.
  unfold fold_mill.
  destruct (Z.eqb_spec (mill_mode chunk i) 1) as [Hm|Hm].
  - cbn [fst snd]. rewrite !get_alter by done.
    destruct (decide (slot (mill_address chunk i) = k)) as [Hs|Hs].
    + rewrite decide_True by done. done.
    + rewrite decide_False by (intros [_ ?]; done). done.
  - rewrite decide_False by (intros [? _]; done). done.
Qed.

(** C9: a sub-record in mode 1 is added to the list entry its address
    byte selects, wherever it stands in the record. For a whole record
    with addresses in range, entry [k] of the counts is increased by one,
    and entry [k] of the sums by the sub-record's mean, once for every
    sub-record in mode 1 whose address selects [k] ([hits chunk k], in
    record order): several sub-records with one address all land on the
    same entry. The address [a] in 1..34 selects entry [a - 1], and
    address 0 selects entry 33, the last one (index -1). *)
Theorem address_selects_the_entry (host : byteorder) (chunk : list byte)
    (counts values : list float) :
  length chunk = chunksize → addresses_in_range chunk = true →
  length counts = 34%nat → length values = 34%nat →
  (∃ counts' values',
     mills host chunk (counts, values) = Ok (counts', values') ∧
     ∀ k, (k < 34)%nat →
       get counts' k
         = fold_left (fun c _ => PrimFloat.add c PrimFloat.one)
                     (hits chunk k) (get counts k) ∧
       get values' k
         = fold_left (fun v i => PrimFloat.add v (mean (mill_samples host chunk i)))
                     (hits chunk k) (get values k)) ∧
  (∀ a, 1 ≤ a ≤ 34 → Py.index 34 (a - 1) = Ok (slot a) ∧ slot a = Z.to_nat (a - 1)) ∧
  Py.index 34 (0 - 1) = Ok (slot 0) ∧ slot 0 = 33%nat.
Proof.
  intros Hlen Hr Lc Lv. split; [|split; [|done]].
  - rewrite mills_in_range; try done.
    + destruct (fold_left _ _ _) as [c' v'] eqn:E. exists c', v'.
      split; [reflexivity|]. intros k Hk.
      pose proof (fold_mill_slots host chunk (seq 0 n_mills) (counts, values) k) as H.
      cbn [fst snd] in H. rewrite E in H. cbn [fst snd] in H.
      apply H; lia.
    + rewrite Hlen. unfold chunksize, n_mills, chunk2size. lia.
  - intros a Ha. split; [apply (index_slot a); lia|].
    unfold slot. destruct (Z.eqb_spec a 0); [lia | reflexivity].
Qed.

Lemma address_selects_the_entry_witness :
  (∃ counts' values',
     mills little shared_address_record (fresh, fresh) = Ok (counts', values') ∧
     ∀ k, (k < 34)%nat →
       get counts' k
         = fold_left (fun c _ => PrimFloat.add c PrimFloat.one)
                     (hits shared_address_record k) (get fresh k) ∧
       get values' k
         = fold_left (fun v i => PrimFloat.add v
                                   (mean (mill_samples little shared_address_record i)))
                     (hits shared_address_record k) (get fresh k)) ∧
  (∀ a, 1 ≤ a ≤ 34 → Py.index 34 (a - 1) = Ok (slot a) ∧ slot a = Z.to_nat (a - 1)) ∧
  Py.index 34 (0 - 1) = Ok (slot 0) ∧ slot 0 = 33%nat.
Proof.
  apply address_selects_the_entry; vm_compute; reflexivity.
Defined.

(** Two sub-records with address 7 and one with address 0: entry 6 is
    counted twice and entry 33 once. *)
Example shared_address_sums :
  hits shared_address_record 6 = [1; 2]%nat ∧
  hits shared_address_record 33 = [0]%nat ∧
  mills little shared_address_record (fresh, fresh)
    = Ok (<[6%nat := 2%float]> (<[33%nat := 1%float]> fresh),
          <[6%nat := 200%float]> (<[33%nat := 100%float]> fresh)).
Proof. repeat split; vm_compute; reflexivity. Qed.

(** ** The bytes a pass reads *)

(** A slice of [b[lo:]] that ends by [hi - lo] only sees [b[lo:hi]]. *)
Lemma slice_of_slice {A} (a b lo hi : nat) (l : list A) :
  (b ≤ hi - lo)%nat →
  slice a b (slice_from lo l) = slice a b (slice lo hi l).
Proof.
  intros H. unfold slice, slice_from.
  rewrite skipn_firstn_comm, take_take. f_equal. lia.
Qed.

Lemma mill_bytes_of_slice (chunk : list byte) (i : nat) :
  (i < n_mills)%nat →
  mill_bytes chunk i
    = slice (i * chunk2size) ((i + 1) * chunk2size) (slice 16 3824 chunk).
Proof.
  intros Hi. unfold mill_bytes. apply slice_of_slice.
  unfold n_mills, chunk2size in *. lia.
Qed.

(** The pass only looks at the time stamp and at the address, mode and
    samples of the first 34 sub-records. *)
Lemma iteration_reads (host : byteorder) (st : state) (c1 c2 : list byte) :
  (16 + n_mills * chunk2size ≤ length c1)%nat →
  (16 + n_mills * chunk2size ≤ length c2)%nat →
  label c1 = label c2 →
  (∀ i, (i < n_mills)%nat →
        mill_mode c1 i = mill_mode c2 i ∧
        mill_address c1 i = mill_address c2 i ∧
        mill_samples host c1 i = mill_samples host c2 i) →
  iteration host st c1 = iteration host st c2.
Proof.
  intros L1 L2 Hlabel Hmills.
  assert (N : ∀ c : list byte, (16 + n_mills * chunk2size ≤ length c)%nat → c ≠ [])
    by (intros c Hc ->; unfold n_mills, chunk2size in Hc; simpl in Hc; lia).
  assert (Ht : chunk_time c1 = chunk_time c2)
    by (rewrite !chunk_time_long by (unfold n_mills, chunk2size in *; lia);
        rewrite Hlabel; reflexivity).
  assert (Hm : mills host c1 (entry st) = mills host c2 (entry st)).
  { unfold mills. apply for_each_ext. intros i [c v] Hi.
    apply elem_of_seq in Hi.
    destruct (Hmills i) as (Hm & Ha & Hs); [lia|].
    rewrite !mill_full by (unfold n_mills, chunk2size in *; lia).
    rewrite Hm, Ha, Hs. reflexivity. }
  rewrite (iteration_nonempty host st c1), (iteration_nonempty host st c2) by auto.
  rewrite Ht, Hm. reflexivity.
Qed.

Lemma chunk_time_agree (c1 c2 : list byte) :
  slice 4 10 c1 = slice 4 10 c2 → chunk_time c1 = chunk_time c2.
Proof. intros H. unfold chunk_time. by rewrite H. Qed.

Lemma mills_agree (host : byteorder) (c1 c2 : list byte) (acc : list float * list float) :
  slice 16 3824 c1 = slice 16 3824 c2 → mills host c1 acc = mills host c2 acc.
Proof.
  intros H. unfold mills. apply for_each_ext. intros i s Hi.
  apply elem_of_seq in Hi. unfold mill.
  fold (mill_bytes c1 i). fold (mill_bytes c2 i).
  rewrite !mill_bytes_of_slice by lia. rewrite H. reflexivity.
Qed.

Lemma whole_record_nonempty (chunk : list byte) : length chunk = chunksize → chunk ≠ [].
Proof. intros H ->. pose proof chunksize_pos. cbn [length] in H. lia. Qed.

(** C10: two whole records with the same bytes 4..9 and the same bytes
    16..3823 take the loop from any state to the same state, with the same
    row written or none, or raise the same exception: bytes 0..3, 10..15
    and 3824..7183 are never looked at. *)
Theorem unread_bytes_do_not_matter (host : byteorder) (st : state) (c1 c2 : list byte) :
  length c1 = chunksize → length c2 = chunksize →
  slice 4 10 c1 = slice 4 10 c2 →
  slice 16 3824 c1 = slice 16 3824 c2 →
  iteration host st c1 = iteration host st c2.
Proof.
  intros L1 L2 Htime Hmills.
  rewrite (iteration_nonempty host st c1), (iteration_nonempty host st c2)
    by (by apply whole_record_nonempty).
  rewrite (chunk_time_agree c1 c2 Htime), (mills_agree host c1 c2 _ Hmills).
  reflexivity.
Qed.

Lemma unread_bytes_do_not_matter_witness :
  station5_record ≠ scrambled_record ∧
  iteration little state_after_59 station5_record
    = iteration little state_after_59 scrambled_record.
Proof.
  split.
  - intros H. apply (f_equal (fun c => nth 0 c x00)) in H. vm_compute in H. discriminate.
  - apply unread_bytes_do_not_matter; vm_compute; reflexivity.
Defined.

(** The same for whole files, record by record. *)
Lemma same_bytes_same_file_outcome (host : byteorder) (chunks1 chunks2 : list (list byte)) :
  Forall2 (fun c1 c2 => length c1 = chunksize ∧ length c2 = chunksize ∧
                        slice 4 10 c1 = slice 4 10 c2 ∧
                        slice 16 3824 c1 = slice 16 3824 c2) chunks1 chunks2 →
  translate_KSC host (concat chunks1) = translate_KSC host (concat chunks2).
Proof.
  intros H.
  rewrite !translate_KSC_feed.
  - f_equal. generalize start, (@nil row).
    induction H as [|c1 c2 r1 r2 (L1 & L2 & Ht & Hm) _ IH]; intros st written;
      [reflexivity|].
    cbn [feed].
    rewrite (iteration_nonempty host st c1), (iteration_nonempty host st c2)
      by (by apply whole_record_nonempty).
    rewrite (chunk_time_agree c1 c2 Ht), (mills_agree host c1 c2 _ Hm).
    destruct (_ ≫= _) as [[|st' out]|e]; try reflexivity. apply IH.
  - eapply Forall2_Forall_r; [exact H|]. apply Forall_true. by intros c2 c1 (_ & ? & _).
  - eapply Forall2_Forall_l; [exact H|]. apply Forall_true. by intros c1 c2 (? & _).
Qed.

(** ** The value a sub-record contributes *)

Lemma length_int16s (order : byteorder) (b : list byte) :
  length (int16s order b) = Nat.div2 (length b) ∧
  ∀ x, length (int16s order (x :: b)) = Nat.div2 (S (length b)).
Proof.
  induction b as [|y b [IH1 IH2]]; [by split|].
  split; [apply IH2|]. intros x. cbn [int16s length Nat.div2]. by rewrite IH1.
Qed.

Lemma length_mill_samples (order : byteorder) (chunk : list byte) (i : nat) :
  (16 + (i + 1) * chunk2size ≤ length chunk)%nat →
  length (mill_samples order chunk i) = 50%nat.
Proof.
  intros H. unfold mill_samples.
  rewrite (proj1 (length_int16s order _)), length_slice, length_mill_bytes by done.
  reflexivity.
Qed.

(** A sub-record in mode 1 adds, once, the mean of its 50 samples as the
    machine running the script reads them: [float(sum)/50] with the
    samples taken in the byte order [host]. *)
Lemma valid_mill_adds_mean (host : byteorder) (chunk : list byte) (i : nat)
    (counts values : list float) :
  (16 + (i + 1) * chunk2size ≤ length chunk)%nat →
  length counts = n_mills → length values = n_mills →
  mill_mode chunk i = 1 → mill_address chunk i ≤ 34 →
  mill host (slice_from 16 chunk) i (counts, values) =
    Ok (alter (fun c => PrimFloat.add c PrimFloat.one) (slot (mill_address chunk i)) counts,
        alter (fun v => PrimFloat.add v
                 (PrimFloat.div (float_of_int (Py.sum (mill_samples host chunk i)))
                                (float_of_int 50)))
              (slot (mill_address chunk i)) values).
Proof.
  intros Hlen Lc Lv Hm Ha.
  rewrite mill_in_range; try done.
  - unfold fold_mill, mean. rewrite Hm, length_mill_samples by done. reflexivity.
  - intros _. split; [apply u8_range | done].
Qed.

(** On a machine that stores the high byte first the samples are the
    big-endian shorts of the file format. *)
Lemma big_endian_host_mean (chunk : list byte) (i : nat) (counts values : list float) :
  (16 + (i + 1) * chunk2size ≤ length chunk)%nat →
  length counts = n_mills → length values = n_mills →
  mill_mode chunk i = 1 → mill_address chunk i ≤ 34 →
  mill big (slice_from 16 chunk) i (counts, values) =
    Ok (alter (fun c => PrimFloat.add c PrimFloat.one) (slot (mill_address chunk i)) counts,
        alter (fun v => PrimFloat.add v (mean (mill_samples big chunk i)))
              (slot (mill_address chunk i)) values).
Proof.
  intros Hlen Lc Lv Hm Ha.
  rewrite valid_mill_adds_mean by done.
  unfold mean. rewrite length_mill_samples by done. reflexivity.
Qed.

(** C4 on a little-endian machine: the sub-record of [one_sample_record]
    is in mode 1 and its samples, read high byte first as the file format
    has them, are 1 followed by 49 zeros, with mean 0.02. The format
    string has no byte-order mark, so the script reads the first sample
    low byte first, as 256, and adds 5.12 to the sum of station 1. *)
Theorem native_order_sample_mean :
  mill_mode one_sample_record 0 = 1 ∧
  mill_address one_sample_record 0 = 1 ∧
  mill_samples big one_sample_record 0 = 1 :: replicate 49 0 ∧
  mean (mill_samples big one_sample_record 0) = 0x1.47ae147ae147bp-6%float ∧
  mills little one_sample_record (fresh, fresh)
    = Ok (<[0%nat := 1%float]> fresh, <[0%nat := 0x1.47ae147ae147bp+2%float]> fresh) ∧
  0x1.47ae147ae147bp+2%float = mean (256 :: replicate 49 0) ∧
  0x1.47ae147ae147bp+2%float ≠ mean (mill_samples big one_sample_record 0).
Proof.
  repeat split; try (vm_compute; reflexivity).
  intros H.
  apply (f_equal (PrimFloat.ltb (mean (mill_samples big one_sample_record 0)))) in H.
  vm_compute in H. discriminate.
Qed.

(** ** The size check of [process_files] *)

Lemma whole_records_of_size (n : nat) (l : list byte) :
  length l = (n * chunksize)%nat →
  ∃ chunks, l = concat chunks ∧ length chunks = n ∧
            Forall (fun chunk => length chunk = chunksize) chunks.
Proof.
  revert l. induction n as [|n IH]; intros l Hl.
  - exists []. destruct l; [done | discriminate Hl].
  - destruct (IH (drop chunksize l)) as (chunks & Hc & Hn & Hall).
    { rewrite length_drop, Hl. lia. }
    exists (take chunksize l :: chunks). split; [|split].
    + cbn [concat]. by rewrite <- Hc, take_drop.
    + cbn [length]. by rewrite Hn.
    + constructor; [|done]. rewrite length_take, Hl. lia.
Qed.

(** The files [process_files] lets through consist of 1800 whole records:
    every read of [translate_KSC] on them returns exactly 7184 bytes, and
    a file of any other size is never unpacked. *)
Lemma process_file_whole_records (host : byteorder) (infile : list byte) :
  (Z.of_nat (length infile) = 12931200 →
   ∃ chunks, infile = concat chunks ∧ length chunks = 1800%nat ∧
             Forall (fun chunk => length chunk = chunksize) chunks ∧
             process_file host infile = Some (feed host start chunks [])) ∧
  (Z.of_nat (length infile) ≠ 12931200 →
   process_file host infile = Some ([], Returned)).
Proof.
  unfold process_file. split; intros H.
  - destruct (whole_records_of_size 1800 infile) as (chunks & -> & Hn & Hall).
    { unfold chunksize. lia. }
    exists chunks. rewrite H. cbn [Z.eqb Pos.eqb].
    split; [done|]. split; [done|]. split; [done|]. by apply translate_KSC_feed.
  - by destruct (Z.eqb_spec (Z.of_nat (length infile)) 12931200).
Qed.

(** * Further properties of the converter *)

(** ** Reads that do not end the loop *)

Lemma iteration_Break_inv (host : byteorder) (st : state) (chunk : list byte) :
  iteration host st chunk = Ok Break → chunk = [].
Proof.
  destruct chunk as [|b chunk]; [done|]. intros H.
  rewrite iteration_nonempty in H by done.
  apply bind_Ok_inv in H as (t & _ & H).
  apply bind_Ok_inv in H as ([c v] & _ & H).
  injection H as H. unfold tick in H. by destruct (_ =? 60).
Qed.

Lemma iteration_short_raises (host : byteorder) (st : state) (chunk : list byte) :
  (0 < length chunk < 16 + n_mills * chunk2size)%nat →
  ∃ e, iteration host st chunk = Raise e.
Proof.
  intros [Hpos Hlen]. rewrite iteration_nonempty by (intros ->; simpl in Hpos; lia).
  destruct (chunk_time chunk) as [t|e]; [|by exists e].
  rewrite bind_Ok.
  destruct (mills_short host chunk (entry st) Hlen) as [e ->]. by exists e.
Qed.

Lemma iteration_stray (host : byteorder) (st : state) (chunk : list byte) :
  invariant st → length chunk = chunksize → addresses_in_range chunk = false →
  iteration host st chunk = Raise IndexError.
Proof.
  intros (_ & Lc & Lv & _) Hlen Hr.
  assert (Hlen' : (16 + n_mills * chunk2size ≤ length chunk)%nat)
    by (rewrite Hlen; unfold chunksize, n_mills, chunk2size; lia).
  rewrite iteration_nonempty by (by apply whole_record_nonempty).
  rewrite chunk_time_long by (unfold n_mills, chunk2size in Hlen'; lia).
  rewrite bind_Ok. unfold mills.
  rewrite for_each_mill_stray; try done.
  - apply Forall_forall. intros i Hi. apply elem_of_seq in Hi. lia.
  - by apply addresses_out_of_range.
Qed.

Lemma feed_app_Some (host : byteorder) (a b : list (list byte)) (st st' : state)
    (written : list row) :
  state_after host st a = Some st' →
  feed host st (a ++ b) written = feed host st' b (feed host st a written).1 ∧
  (feed host st a written).2 = Returned.
Proof.
  revert st written. induction a as [|chunk a IH]; intros st written H.
  - injection H as <-. done.
  - cbn [state_after] in H. cbn [feed app].
    destruct (iteration host st chunk) as [[|st1 out]|e]; try discriminate.
    by apply IH.
Qed.

Lemma feed_app_None (host : byteorder) (a b : list (list byte)) (st : state)
    (written : list row) :
  Forall (fun chunk => chunk ≠ []) a →
  state_after host st a = None →
  feed host st (a ++ b) written = feed host st a written ∧
  ∃ e, (feed host st a written).2 = Raised e.
Proof.
  intros Ha. revert st written.
  induction Ha as [|chunk a Hne _ IH]; intros st written H; [discriminate|].
  cbn [state_after] in H. cbn [feed app].
  destruct (iteration host st chunk) as [[|st1 out]|e] eqn:E.
  - by apply iteration_Break_inv in E.
  - by apply IH.
  - split; [reflexivity | by exists e].
Qed.

Lemma Forall_whole_nonempty (chunks : list (list byte)) :
  Forall (fun chunk => length chunk = chunksize) chunks →
  Forall (fun chunk => chunk ≠ []) chunks.
Proof. intros H. eapply Forall_impl; [exact H|]. apply whole_record_nonempty. Qed.

Lemma state_after_counter (host : byteorder) (a : list (list byte)) (st st' : state) :
  0 ≤ second_count st < 60 →
  state_after host st a = Some st' →
  second_count st' = (second_count st + Z.of_nat (length a)) mod 60.
Proof.
  revert st. induction a as [|chunk a IH]; intros st Hsc H.
  - injection H as <-. cbn [length]. rewrite Z.add_0_r, Z.mod_small; lia.
  - cbn [state_after] in H.
    destruct (iteration host st chunk) as [[|st1 out]|e] eqn:E; try discriminate.
    apply iteration_Next_inv in E as (t & c' & v' & _ & _ & _ & Ht).
    destruct (tick_counter _ _ _ _ _ _ Hsc Ht) as [(H59 & H0 & _) | (H58 & Hs & _)].
    + rewrite (IH st1) by (done || lia). rewrite H0, H59.
      replace (59 + Z.of_nat (length (chunk :: a))) with (Z.of_nat (length a) + 1 * 60)
        by (cbn [length]; lia).
      by rewrite Z.mod_add.
    + rewrite (IH st1) by (done || lia). rewrite Hs. f_equal. cbn [length]. lia.
Qed.

Lemma state_after_in_range (host : byteorder) (w : list (list byte)) (st : state) :
  invariant st →
  Forall (fun chunk => length chunk = chunksize ∧ addresses_in_range chunk = true) w →
  ∃ st', state_after host st w = Some st' ∧ invariant st'.
Proof.
  intros Hst Hw. revert st Hst.
  induction Hw as [|chunk w [Hlen Hr] _ IH]; intros st Hst; [by exists st|].
  assert (Hlen' : (16 + n_mills * chunk2size ≤ length chunk)%nat)
    by (rewrite Hlen; unfold chunksize, n_mills, chunk2size; lia).
  pose proof (iteration_in_range host st chunk Hst Hlen' Hr) as Hit. cbn zeta in Hit.
  destruct (tick st _ _ _) as [|st1 out] eqn:Ht;
    [unfold tick in Ht; by destruct (_ =? 60)|].
  cbn [state_after]. rewrite Hit. apply IH. by eapply invariant_step.
Qed.

Lemma feed_fresh (host : byteorder) (chunks : list (list byte)) (st : state)
    (written : list row) :
  second_count st = 0 → feed host st chunks written = feed host start chunks written.
Proof.
  intros H. destruct chunks as [|chunk rest]; [reflexivity|].
  cbn [feed]. by rewrite (iteration_fresh host st chunk H).
Qed.

Lemma while_true_step (fuel : nat) (host : byteorder) (st : state) (f : list byte)
    (written : list row) :
  while_true (S fuel) host st f written =
    match iteration host st (take chunksize f) with
    | Raise e => Some (written, Raised e)
    | Ok Break => Some (written, Returned)
    | Ok (Next st' out) =>
        while_true fuel host st' (drop chunksize f)
                   (written ++ match out with Some r => [r] | None => [] end)
    end.
Proof. reflexivity. Qed.

(** A file made of whole records and a last, shorter read. *)
Lemma while_true_concat_tail (fuel : nat) (host : byteorder) (st : state)
    (chunks : list (list byte)) (tail : list byte) (written : list row) :
  Forall (fun chunk => length chunk = chunksize) chunks →
  (0 < length tail < chunksize)%nat →
  (S (length chunks) < fuel)%nat →
  while_true fuel host st (concat chunks ++ tail) written
    = Some (feed host st (chunks ++ [tail]) written).
Proof.
  intros Hfull Htail. revert fuel st written.
  induction Hfull as [|chunk chunks Hlen _ IH]; intros fuel st written Hfuel.
  - destruct fuel as [|[|fuel]]; [cbn [length] in Hfuel; lia..|].
    cbn [concat app feed]. rewrite while_true_step.
    rewrite take_ge, drop_ge by lia.
    destruct (iteration host st tail) as [[|st' out]|e]; [reflexivity| |reflexivity].
    rewrite while_true_step. by rewrite take_nil.
  - destruct fuel as [|fuel]; [lia|].
    rewrite while_true_step. cbn [concat feed app]. rewrite <- app_assoc.
    rewrite take_app_length', drop_app_length' by done.
    destruct (iteration host st chunk) as [[|st' out]|e]; try reflexivity.
    apply IH. cbn [length] in Hfuel. lia.
Qed.

(** ** The state of the loop *)

Lemma count_of_float_of_int (n : nat) :
  (n ≤ 2040)%nat → count_of n = float_of_int (Z.of_nat n).
Proof.
  intros H.
  assert (T : count_of <$> seq 0 2041 = (fun k => float_of_int (Z.of_nat k)) <$> seq 0 2041)
    by (vm_compute; reflexivity).
  apply (f_equal (fun l => l !! n)) in T.
  rewrite !list_lookup_fmap, !lookup_seq_lt in T by lia.
  by injection T.
Qed.

(** X1: at the top of every pass [second_count] is between 0 and 59;
    when it is not 0, both lists have 34 entries and every count is the
    float of a whole number between 0 and 34 times [second_count]. *)
Theorem loop_state_invariant (host : byteorder) (st : state) :
  reachable host st →
  0 ≤ second_count st < 60 ∧
  (second_count st ≠ 0 →
   length (mill_counts st) = 34%nat ∧ length (mill_values st) = 34%nat ∧
   Forall (fun c => ∃ n, 0 ≤ n ≤ 34 * second_count st ∧ c = float_of_int n)
          (mill_counts st)).
Proof.
  intros H. apply reachable_invariant in H as (Hsc & Lc & Lv & Hc).
  split; [exact Hsc|]. intros Hne. unfold entry in *.
  destruct (Z.eqb_spec (second_count st) 0) as [?|_]; [contradiction|].
  cbn [fst snd] in *. split; [exact Lc|]. split; [exact Lv|].
  eapply Forall_impl; [exact Hc|]. intros c (n & Hn & ->).
  unfold n_mills in Hn. exists (Z.of_nat n). split; [lia|].
  apply count_of_float_of_int. lia.
Qed.

Lemma loop_state_invariant_witness :
  0 ≤ second_count state_after_59 < 60 ∧
  (second_count state_after_59 ≠ 0 →
   length (mill_counts state_after_59) = 34%nat ∧
   length (mill_values state_after_59) = 34%nat ∧
   Forall (fun c => ∃ n, 0 ≤ n ≤ 34 * second_count state_after_59 ∧ c = float_of_int n)
          (mill_counts state_after_59)).
Proof. apply (loop_state_invariant little), reachable_state_after_59. Defined.

(** ** The width of a row *)

Lemma iteration_row_width (host : byteorder) (st st' : state) (chunk : list byte) (r : row) :
  invariant st → iteration host st chunk = Ok (Next st' (Some r)) →
  length r.2 = 34%nat.
Proof.
  intros (Hsc & Lc & Lv & Hc) H.
  apply iteration_Next_inv in H as (t & c' & v' & _ & _ & Hm & Ht).
  unfold mills in Hm. destruct (entry st) as [c v]. cbn [fst snd] in Lc, Lv, Hc.
  destruct (for_each_mill_preserves _ _ _ _ _ _ _ _ Hm Hc) as (_ & Lv' & _).
  unfold tick in Ht. destruct (_ =? 60); [|discriminate].
  injection Ht as _ <-. cbn [snd]. by rewrite averages_length, Lv', Lv.
Qed.

Lemma while_true_row_width (fuel : nat) (host : byteorder) (st : state) (f : list byte)
    (written rows : list row) (how : outcome) :
  invariant st →
  Forall (fun r : row => length r.2 = 34%nat) written →
  while_true fuel host st f written = Some (rows, how) →
  Forall (fun r : row => length r.2 = 34%nat) rows.
Proof.
  revert st f written. induction fuel as [|fuel IH]; intros st f written Hst Hw H;
    [discriminate|].
  rewrite while_true_step in H.
  destruct (iteration host st (take chunksize f)) as [[|st' out]|e] eqn:E.
  - by injection H as <- _.
  - eapply IH; [by eapply invariant_step| |exact H].
    apply Forall_app. split; [exact Hw|].
    destruct out as [r|]; [|constructor].
    constructor; [|constructor]. by eapply iteration_row_width.
  - by injection H as <- _.
Qed.

(** X2: whatever the bytes of the file, and whether the call returns or
    raises, every row handed to the writer has exactly 34 values after
    its label. *)
Theorem every_row_has_34_values (host : byteorder) (infile : list byte)
    (rows : list row) (how : outcome) :
  translate_KSC host infile = Some (rows, how) →
  Forall (fun r : row => length r.2 = 34%nat) rows.
Proof.
  intros H. eapply while_true_row_width; [apply invariant_start | constructor | exact H].
Qed.

Lemma every_row_has_34_values_witness :
  Forall (fun r : row => length r.2 = 34%nat) [station5_row].
Proof.
  apply (every_row_has_34_values little (concat (replicate 60 station5_record))
           [station5_row] Returned).
  vm_compute. reflexivity.
Defined.

(** ** Files that do not end on a record boundary *)

(** X3: when a file consists of whole records followed by 1 to 3823 more
    bytes, the call raises, at that last read if not before; the rows
    written are those that the whole records alone give. *)
Theorem trailing_bytes_raise (host : byteorder) (chunks : list (list byte))
    (tail : list byte) :
  Forall (fun chunk => length chunk = chunksize) chunks →
  (0 < length tail < 3824)%nat →
  ∃ rows how e,
    translate_KSC host (concat chunks) = Some (rows, how) ∧
    translate_KSC host (concat chunks ++ tail) = Some (rows, Raised e).
Proof.
  intros Hfull Htail.
  rewrite translate_KSC_feed by done. unfold translate_KSC.
  rewrite while_true_concat_tail; try done.
  - destruct (state_after host start chunks) as [st'|] eqn:Hs.
    + destruct (feed_app_Some host chunks [tail] start st' [] Hs) as [-> Hret].
      destruct (feed host start chunks []) as [rows how]. cbn [fst snd] in *.
      destruct (iteration_short_raises host st' tail) as [e He];
        [unfold n_mills, chunk2size; lia|].
      exists rows, how, e. split; [reflexivity|]. cbn [feed]. by rewrite He.
    + destruct (feed_app_None host chunks [tail] start [] (Forall_whole_nonempty _ Hfull) Hs)
        as [-> [e He]].
      destruct (feed host start chunks []) as [rows how]. cbn [snd] in He. subst how.
      by exists rows, (Raised e), e.
  - unfold chunksize. lia.
  - pose proof (length_concat_full _ Hfull). rewrite length_app. lia.
Qed.

Lemma trailing_bytes_raise_witness :
  ∃ rows how e,
    translate_KSC little (concat (replicate 60 station5_record)) = Some (rows, how) ∧
    translate_KSC little sixty_and_a_bit = Some (rows, Raised e).
Proof.
  apply (trailing_bytes_raise little (replicate 60 station5_record) (take 100 station5_record)).
  - apply Forall_whole. vm_compute. reflexivity.
  - split; apply Nat.ltb_lt; vm_compute; reflexivity.
Defined.

(** ** Converting a concatenation *)

(** X4: if a first run of whole records, a multiple of 60 of them, is
    converted without an exception, then converting it followed by more
    whole records gives its rows followed by the rows of the rest
    converted alone, and ends as the rest alone ends. *)
Theorem concatenation_at_window_boundary (host : byteorder)
    (w rest : list (list byte)) (rows1 rows2 : list row) (how : outcome) :
  Forall (fun chunk => length chunk = chunksize) w →
  Forall (fun chunk => length chunk = chunksize) rest →
  (length w mod 60 = 0)%nat →
  translate_KSC host (concat w) = Some (rows1, Returned) →
  translate_KSC host (concat rest) = Some (rows2, how) →
  translate_KSC host (concat (w ++ rest)) = Some (rows1 ++ rows2, how).
Proof.
  intros Hw Hrest Hlen H1 H2.
  rewrite translate_KSC_feed in H1, H2 by done.
  rewrite translate_KSC_feed by (by apply Forall_app).
  injection H1 as H1. injection H2 as H2. f_equal.
  destruct (state_after host start w) as [st'|] eqn:Hs.
  - destruct (feed_app_Some host w rest start st' [] Hs) as [-> _].
    rewrite H1. cbn [fst].
    rewrite feed_fresh, feed_written, H2; [done|].
    rewrite (state_after_counter host w start st') by done.
    cbn [second_count start]. rewrite Z.add_0_l.
    replace 60 with (Z.of_nat 60) by done. rewrite <- Nat2Z.inj_mod, Hlen. done.
  - destruct (feed_app_None host w rest start [] (Forall_whole_nonempty _ Hw) Hs)
      as [_ [e He]].
    rewrite H1 in He. discriminate He.
Qed.

Lemma concatenation_at_window_boundary_witness :
  translate_KSC little (concat (replicate 60 station5_record ++ sixty_with_stray))
    = Some ([station5_row] ++ [], Raised IndexError).
Proof.
  apply concatenation_at_window_boundary.
  - apply Forall_whole. vm_compute. reflexivity.
  - apply Forall_whole. vm_compute. reflexivity.
  - reflexivity.
  - vm_compute. reflexivity.
  - vm_compute. reflexivity.
Defined.

(** ** An exception in the middle of a file *)

(** X5: when whole records with addresses in range are followed by a
    whole record in which a mode-1 sub-record has an address of 35 or
    more, the call raises [IndexError] at that record: the rows written
    are exactly those of the records before it, and nothing after it is
    converted. *)
Theorem stray_record_stops_conversion (host : byteorder)
    (good rest : list (list byte)) (bad : list byte) :
  Forall (fun chunk => length chunk = chunksize ∧ addresses_in_range chunk = true) good →
  length bad = chunksize → addresses_in_range bad = false →
  Forall (fun chunk => length chunk = chunksize) rest →
  ∃ rows,
    translate_KSC host (concat good) = Some (rows, Returned) ∧
    length rows = (length good / 60)%nat ∧
    translate_KSC host (concat (good ++ bad :: rest)) = Some (rows, Raised IndexError).
Proof.
  intros Hgood Hlen Hbad Hrest.
  assert (Hgood' : Forall (fun chunk => length chunk = chunksize) good)
    by (eapply Forall_impl; [exact Hgood | by intros ? [? _]]).
  rewrite translate_KSC_feed by done.
  rewrite translate_KSC_feed by (apply Forall_app; split; [done | by constructor]).
  destruct (feed_count host good start invariant_start Hgood) as (rows & Hrows & Hn).
  destruct (state_after_in_range host good start invariant_start Hgood) as (st' & Hs & Hst').
  destruct (feed_app_Some host good (bad :: rest) start st' [] Hs) as [-> _].
  rewrite Hrows. exists rows. split; [reflexivity|]. split; [exact Hn|].
  cbn [fst feed]. by rewrite (iteration_stray host st' bad Hst' Hlen Hbad).
Qed.

Lemma stray_record_stops_conversion_witness :
  ∃ rows,
    translate_KSC little (concat (replicate 60 station5_record)) = Some (rows, Returned) ∧
    length rows = (length (replicate 60 station5_record) / 60)%nat ∧
    translate_KSC little
      (concat (replicate 60 station5_record ++ stray_address_record :: [station5_record]))
      = Some (rows, Raised IndexError).
Proof.
  apply stray_record_stops_conversion.
  - apply Forall_whole_in_range. vm_compute. reflexivity.
  - vm_compute. reflexivity.
  - vm_compute. reflexivity.
  - apply Forall_whole. vm_compute. reflexivity.
Defined.

(** ** The row of a window *)

Lemma fold_left_fold_mill_length (host : byteorder) (chunk : list byte) (ixs : list nat)
    (acc : list float * list float) :
  length (fold_left (fold_mill host chunk) ixs acc).1 = length acc.1 ∧
  length (fold_left (fold_mill host chunk) ixs acc).2 = length acc.2.
Proof.
  revert acc. induction ixs as [|i ixs IH]; intros acc; [done|].
  cbn [fold_left]. destruct (IH (fold_mill host chunk acc i)) as [-> ->].
  apply fold_mill_length.
Qed.

Lemma fold_left_count {A} (l : list A) (x : float) :
  fold_left (fun c _ => PrimFloat.add c PrimFloat.one) l x
    = Nat.iter (length l) (fun c => PrimFloat.add c PrimFloat.one) x.
Proof.
  revert x. induction l as [|a l IH]; intros x; [reflexivity|].
  cbn [fold_left length]. rewrite IH. by rewrite Nat.iter_succ_r.
Qed.

Lemma fold_left_add_map {A} (f : A → float) (l : list A) (x : float) :
  fold_left (fun v i => PrimFloat.add v (f i)) l x = fold_left PrimFloat.add (map f l) x.
Proof. revert x. induction l as [|a l IH]; intros x; [reflexivity | apply IH]. Qed.

Lemma iter_add (n m : nat) (x : float) :
  Nat.iter n (fun c => PrimFloat.add c PrimFloat.one)
           (Nat.iter m (fun c => PrimFloat.add c PrimFloat.one) x)
    = Nat.iter (m + n) (fun c => PrimFloat.add c PrimFloat.one) x.
Proof. by rewrite Nat.add_comm, Nat.iter_add. Qed.

Lemma fold_left_nil_eq {A B} (f : A → B → A) (a : A) : fold_left f [] a = a.
Proof. reflexivity. Qed.

Lemma fold_left_cons_eq {A B} (f : A → B → A) (x : B) (l : list B) (a : A) :
  fold_left f (x :: l) a = fold_left f l (f a x).
Proof. reflexivity. Qed.

Lemma fold_records_nil (host : byteorder) (acc : list float * list float) :
  fold_records host [] acc = acc.
Proof. unfold fold_records. apply fold_left_nil_eq. Qed.

Lemma fold_records_cons (host : byteorder) (chunk : list byte) (w : list (list byte))
    (acc : list float * list float) :
  fold_records host (chunk :: w) acc
    = fold_records host w (fold_left (fold_mill host chunk) (seq 0 n_mills) acc).
Proof. unfold fold_records. rewrite fold_left_cons_eq. reflexivity. Qed.

Lemma fold_records_snoc (host : byteorder) (w : list (list byte)) (chunk : list byte)
    (acc : list float * list float) :
  fold_records host (w ++ [chunk]) acc
    = fold_left (fold_mill host chunk) (seq 0 n_mills) (fold_records host w acc).
Proof.
  unfold fold_records.
  rewrite fold_left_app, fold_left_cons_eq, fold_left_nil_eq. reflexivity.
Qed.

Lemma window_means_nil (host : byteorder) (k : nat) : window_means host [] k = [].
Proof. reflexivity. Qed.

Lemma window_means_cons (host : byteorder) (chunk : list byte) (w : list (list byte))
    (k : nat) :
  window_means host (chunk :: w) k
    = map (fun i => mean (mill_samples host chunk i)) (hits chunk k)
        ++ window_means host w k.
Proof. reflexivity. Qed.

(** Entry [k] of both lists after one record. *)
Lemma record_slots (host : byteorder) (chunk : list byte)
    (acc : list float * list float) (k : nat) :
  (k < length acc.1)%nat → (k < length acc.2)%nat →
  get (fold_left (fold_mill host chunk) (seq 0 n_mills) acc).1 k
    = Nat.iter (length (hits chunk k))
               (fun c => PrimFloat.add c PrimFloat.one) (get acc.1 k) ∧
  get (fold_left (fold_mill host chunk) (seq 0 n_mills) acc).2 k
    = fold_left PrimFloat.add
        (map (fun i => mean (mill_samples host chunk i)) (hits chunk k)) (get acc.2 k).
Proof.
  intros H1 H2.
  destruct (fold_mill_slots host chunk (seq 0 n_mills) acc k H1 H2) as [E1 E2].
  split.
  - rewrite E1. apply fold_left_count.
  - rewrite E2. apply fold_left_add_map.
Qed.

(** Entry [k] of both lists after the records [w]: one more count and one
    more term in the sum for every mean in [window_means host w k]. *)
Lemma fold_records_slots (host : byteorder) (w : list (list byte))
    (acc : list float * list float) (k : nat) :
  (k < length acc.1)%nat → (k < length acc.2)%nat →
  get (fold_records host w acc).1 k
    = Nat.iter (length (window_means host w k))
               (fun c => PrimFloat.add c PrimFloat.one) (get acc.1 k) ∧
  get (fold_records host w acc).2 k
    = fold_left PrimFloat.add (window_means host w k) (get acc.2 k).
Proof.
  revert acc. induction w as [|chunk w IH]; intros acc H1 H2.
  - rewrite fold_records_nil, window_means_nil. split; reflexivity.
  - rewrite fold_records_cons, window_means_cons.
    destruct (fold_left_fold_mill_length host chunk (seq 0 n_mills) acc) as [L1 L2].
    destruct (IH (fold_left (fold_mill host chunk) (seq 0 n_mills) acc)) as [E1 E2];
      [lia | lia |].
    destruct (record_slots host chunk acc k H1 H2) as [R1 R2].
    split.
    + rewrite E1, R1, length_app, length_map. apply iter_add.
    + rewrite E2, R2, fold_left_app. reflexivity.
Qed.

Lemma length_hits (chunk : list byte) (k : nat) : (length (hits chunk k) ≤ 34)%nat.
Proof.
  unfold hits. etransitivity; [apply length_filter|]. by rewrite length_seq.
Qed.

Lemma length_window_means (host : byteorder) (w : list (list byte)) (k : nat) :
  (length (window_means host w k) ≤ 34 * length w)%nat.
Proof.
  induction w as [|chunk w IH]; [rewrite window_means_nil; cbn [length]; lia|].
  rewrite window_means_cons, length_app, length_map. cbn [length].
  pose proof (length_hits chunk k). lia.
Qed.

Lemma tick_entry (st st' : state) (t : string) (c v : list float) (out : option row) :
  0 ≤ second_count st < 59 → tick st t c v = Next st' out → entry st' = (c, v).
Proof.
  intros Hsc Ht. unfold tick in Ht.
  destruct (Z.eqb_spec (second_count st + 1) 60) as [?|_]; [lia|].
  injection Ht as <- _. unfold entry. cbn [second_count mill_counts mill_values].
  destruct (Z.eqb_spec (second_count st + 1) 0) as [?|_]; [lia | reflexivity].
Qed.

Lemma tick_close (st : state) (t : string) (c v : list float) :
  second_count st = 59 →
  tick st t c v =
    Next {| second_count := 0; mill_counts := c; mill_values := v; time := t |}
         (Some (t, averages c v)).
Proof. intros H. unfold tick. rewrite H. reflexivity. Qed.

(** The state after fewer than 60 records with addresses in range. *)
Lemma state_after_fold (host : byteorder) (w : list (list byte)) (st : state) :
  invariant st →
  Forall (fun chunk => length chunk = chunksize ∧ addresses_in_range chunk = true) w →
  second_count st + Z.of_nat (length w) < 60 →
  ∃ st', state_after host st w = Some st' ∧ invariant st' ∧
         second_count st' = second_count st + Z.of_nat (length w) ∧
         entry st' = fold_records host w (entry st).
Proof.
  intros Hst Hw. revert st Hst.
  induction Hw as [|chunk w [Hlen Hr] _ IH]; intros st Hst Hsc.
  - exists st. cbn [length]. rewrite Z.add_0_r. done.
  - assert (Hlen' : (16 + n_mills * chunk2size ≤ length chunk)%nat)
      by (rewrite Hlen; unfold chunksize, n_mills, chunk2size; lia).
    pose proof (iteration_in_range host st chunk Hst Hlen' Hr) as Hit. cbn zeta in Hit.
    destruct (tick st _ _ _) as [|st1 out] eqn:Ht;
      [unfold tick in Ht; by destruct (_ =? 60)|].
    pose proof (invariant_step _ _ _ _ _ Hst Hit) as Hst1.
    assert (Hsc0 : 0 ≤ second_count st < 60) by apply Hst.
    cbn [length] in Hsc.
    destruct (tick_counter _ _ _ _ _ _ Hsc0 Ht) as [(H59 & _) | (H58 & Esc & _)]; [lia|].
    pose proof (tick_entry _ _ _ _ _ _ (conj (proj1 Hsc0) H58) Ht) as Eentry.
    rewrite <- surjective_pairing in Eentry.
    destruct (IH st1 Hst1) as (st' & Hs & Hst' & Hsc' & He); [lia|].
    exists st'. cbn [state_after]. rewrite Hit. split; [exact Hs|]. split; [exact Hst'|].
    split; [cbn [length]; lia|]. rewrite He, Eentry, fold_records_cons. reflexivity.
Qed.

(** X6: sixty whole records with addresses in range give one row, with
    the label of the 60th record. Its value for entry [k] is [nan] when
    no sub-record in mode 1 selected [k] during the window; otherwise it
    is the sum of the per-record means of those sub-records, added in
    file order starting from [0.], divided by their number. *)
Theorem window_row (host : byteorder) (w : list (list byte)) :
  length w = 60%nat →
  Forall (fun chunk => length chunk = chunksize ∧ addresses_in_range chunk = true) w →
  ∃ c60 vals,
    last w = Some c60 ∧
    translate_KSC host (concat w) = Some ([(label c60, vals)], Returned) ∧
    ∀ k, (k < 34)%nat →
      vals !! k =
        Some (match window_means host w k with
              | [] => PrimFloat.nan
              | ms => PrimFloat.div (float_sum ms) (float_of_int (Z.of_nat (length ms)))
              end).
Proof.
  intros Hlen Hw.
  destruct w as [|c0 w0] using rev_ind; [discriminate|]. clear IHw0.
  rename w0 into w59, c0 into c60.
  rewrite length_app in Hlen. cbn [length] in Hlen.
  apply Forall_app in Hw as [Hw59 Hc60]. apply Forall_singleton in Hc60 as [Hl60 Hr60].
  destruct (state_after_fold host w59 start invariant_start Hw59)
    as (st59 & Hs & Hst59 & Hsc & He); [cbn [second_count start]; lia|].
  destruct (feed_count host w59 start invariant_start Hw59) as (new & Hnew & Hn).
  cbn [second_count start] in Hn, Hsc.
  replace (Z.to_nat 0 + length w59)%nat with 59%nat in Hn by lia.
  destruct new as [|? ?]; [|discriminate Hn]. clear Hn.
  assert (Hl60' : (16 + n_mills * chunk2size ≤ length c60)%nat)
    by (rewrite Hl60; unfold chunksize, n_mills, chunk2size; lia).
  pose proof (iteration_in_range host st59 c60 Hst59 Hl60' Hr60) as Hit. cbn zeta in Hit.
  rewrite He, <- fold_records_snoc in Hit.
  set (F := fold_records host (w59 ++ [c60]) (entry start)) in *.
  rewrite tick_close in Hit by lia.
  exists c60, (averages F.1 F.2).
  split; [apply last_snoc|]. split.
  - rewrite translate_KSC_feed.
    + destruct (feed_app_Some host w59 [c60] start st59 [] Hs) as [-> _].
      rewrite Hnew. cbn [fst feed]. rewrite Hit. reflexivity.
    + apply Forall_app. split; [|by apply Forall_singleton].
      eapply Forall_impl; [exact Hw59 | by intros ? [? _]].
  - intros k Hk.
    assert (Lf : length fresh = 34%nat) by reflexivity.
    destruct (fold_records_slots host (w59 ++ [c60]) (entry start) k) as [E1 E2];
      [change (k < length fresh)%nat; rewrite Lf; exact Hk..|].
    fold F in E1, E2.
    assert (LF : length F.2 = 34%nat).
    { destruct Hst59 as (_ & _ & L2 & _). rewrite He in L2.
      unfold F. rewrite fold_records_snoc.
      destruct (fold_left_fold_mill_length host c60 (seq 0 n_mills)
                  (fold_records host w59 (entry start))) as [_ ->]. exact L2. }
    rewrite averages_lookup by (rewrite LF; exact Hk).
    rewrite E1, E2.
    change (get (entry start).1 k) with (get fresh k).
    change (get (entry start).2 k) with (get fresh k).
    assert (G : get fresh k = PrimFloat.zero).
    { unfold get, fresh. by rewrite lookup_replicate_2. }
    rewrite G. fold (count_of (length (window_means host (w59 ++ [c60]) k))).
    pose proof (length_window_means host (w59 ++ [c60]) k) as Hms.
    rewrite length_app in Hms. cbn [length] in Hms.
    destruct (window_means host (w59 ++ [c60]) k) as [|m ms] eqn:Ems; [reflexivity|].
    rewrite count_of_positive by (cbn [length] in *; lia).
    rewrite count_of_float_of_int by lia. reflexivity.
Qed.

Lemma window_row_witness :
  ∃ c60 vals,
    last (replicate 60 station5_record) = Some c60 ∧
    translate_KSC little (concat (replicate 60 station5_record))
      = Some ([(label c60, vals)], Returned) ∧
    ∀ k, (k < 34)%nat →
      vals !! k =
        Some (match window_means little (replicate 60 station5_record) k with
              | [] => PrimFloat.nan
              | ms => PrimFloat.div (float_sum ms) (float_of_int (Z.of_nat (length ms)))
              end).
Proof.
  apply window_row; [reflexivity|].
  apply Forall_whole_in_range. vm_compute. reflexivity.
Defined.

(** ** The year of the label *)

(** X7: the year computed from a year byte lies between 1990 and 2155.
    For a two-digit field (below 100) it lies between 1990 and 2089, its
    last two digits are the field, and different fields give different
    years; a field of 100 to 189 repeats the year of the field 100
    below it. *)
Theorem year_range_and_digits (b b' : byte) :
  1990 ≤ full_year (u8 b) ≤ 2155 ∧
  (u8 b < 100 →
   1990 ≤ full_year (u8 b) ≤ 2089 ∧ full_year (u8 b) mod 100 = u8 b ∧
   (u8 b' < 100 → full_year (u8 b) = full_year (u8 b') → b = b')) ∧
  (100 ≤ u8 b < 190 → full_year (u8 b) = full_year (u8 b - 100)).
Proof.
  pose proof (u8_range b) as Hb. pose proof (u8_range b') as Hb'.
  assert (Y : ∀ y, full_year y = if y <? 90 then y + 2000 else y + 1900) by reflexivity.
  split; [rewrite Y; destruct (Z.ltb_spec (u8 b) 90); lia|].
  split.
  - intros H100.
    split; [rewrite Y; destruct (Z.ltb_spec (u8 b) 90); lia|].
    split.
    + rewrite Y. destruct (Z.ltb_spec (u8 b) 90).
      * symmetry. apply (Z.mod_unique _ _ 20); lia.
      * symmetry. apply (Z.mod_unique _ _ 19); lia.
    + intros H100' Heq.
      assert (E : u8 b = u8 b').
      { rewrite !Y in Heq.
        destruct (Z.ltb_spec (u8 b) 90), (Z.ltb_spec (u8 b') 90); lia. }
      unfold u8 in E. apply N2Z.inj in E.
      apply (f_equal Byte.of_N) in E. rewrite !Byte.of_to_N in E. by injection E.
  - intros H100. rewrite !Y.
    destruct (Z.ltb_spec (u8 b) 90), (Z.ltb_spec (u8 b - 100) 90); lia.
Qed.

Lemma year_range_and_digits_witness :
  1990 ≤ full_year (u8 x60) ≤ 2155 ∧
  (u8 x60 < 100 →
   1990 ≤ full_year (u8 x60) ≤ 2089 ∧ full_year (u8 x60) mod 100 = u8 x60 ∧
   (u8 x0a < 100 → full_year (u8 x60) = full_year (u8 x0a) → x60 = x0a)) ∧
  (100 ≤ u8 x60 < 190 → full_year (u8 x60) = full_year (u8 x60 - 100)).
Proof. apply year_range_and_digits. Defined.

(** ** The samples of a sub-record *)

Lemma int16_range (order : byteorder) (b0 b1 : byte) :
  -32768 ≤ int16 order b0 b1 ≤ 32767.
Proof.
  pose proof (u8_range b0). pose proof (u8_range b1). unfold int16.
  destruct order;
    match goal with |- context [?u <? 32768] => destruct (Z.ltb_spec u 32768) end; lia.
Qed.

Lemma int16s_range (order : byteorder) (b : list byte) :
  Forall (fun h => -32768 ≤ h ≤ 32767) (int16s order b) ∧
  ∀ x, Forall (fun h => -32768 ≤ h ≤ 32767) (int16s order (x :: b)).
Proof.
  induction b as [|y b [IH1 IH2]]; [split; [constructor | intros x; constructor]|].
  split; [apply IH2|]. intros x. cbn [int16s].
  constructor; [apply int16_range | exact IH1].
Qed.

Lemma sum_range (xs : list Z) (a : Z) :
  Forall (fun h => -32768 ≤ h ≤ 32767) xs →
  a - 32768 * Z.of_nat (length xs) ≤ fold_left Z.add xs a ≤ a + 32767 * Z.of_nat (length xs).
Proof.
  intros H. revert a. induction H as [|x xs Hx _ IH]; intros a; [cbn; lia|].
  cbn [fold_left length]. specialize (IH (a + x)). lia.
Qed.

(** X8: the 100 sample bytes of a complete sub-record give 50 integers,
    each between -32768 and 32767 in either byte order, and their sum lies
    between -1638400 and 1638350, far inside the range in which
    [float(sum)] is exact. *)
Theorem samples_are_16_bit (order : byteorder) (chunk : list byte) (i : nat) :
  (16 + (i + 1) * chunk2size ≤ length chunk)%nat →
  length (mill_samples order chunk i) = 50%nat ∧
  Forall (fun h => -32768 ≤ h ≤ 32767) (mill_samples order chunk i) ∧
  -1638400 ≤ Py.sum (mill_samples order chunk i) ≤ 1638350.
Proof.
  intros H. pose proof (length_mill_samples order chunk i H) as L.
  assert (R : Forall (fun h => -32768 ≤ h ≤ 32767) (mill_samples order chunk i))
    by apply int16s_range.
  split; [exact L|]. split; [exact R|].
  pose proof (sum_range _ 0 R) as S. rewrite L in S. unfold Py.sum. lia.
Qed.

Lemma samples_are_16_bit_witness :
  length (mill_samples little one_sample_record 0) = 50%nat ∧
  Forall (fun h => -32768 ≤ h ≤ 32767) (mill_samples little one_sample_record 0) ∧
  -1638400 ≤ Py.sum (mill_samples little one_sample_record 0) ≤ 1638350.
Proof.
  apply samples_are_16_bit. apply Nat.leb_le. vm_compute. reflexivity.
Defined.

(** ** The fields that are used *)

Lemma nth_mill_bytes (chunk : list byte) (i j : nat) :
  (j < 112)%nat →
  nth j (mill_bytes chunk i) x00 = nth (16 + 112 * i + j) chunk x00.
Proof.
  intros Hj. unfold mill_bytes, slice, slice_from, chunk2size.
  rewrite nth_firstn.
  destruct (Nat.ltb_spec j ((i + 1) * 112 - i * 112)) as [_|?]; [|lia].
  rewrite !nth_skipn. f_equal. lia.
Qed.

Lemma nth_take_drop (b : list byte) (lo n j : nat) :
  (j < n)%nat → nth j (take n (drop lo b)) x00 = nth (lo + j) b x00.
Proof.
  intros Hj. rewrite nth_firstn.
  destruct (Nat.ltb_spec j n) as [_|?]; [|lia]. apply nth_skipn.
Qed.

Lemma nth_agree (idxs : list nat) (c1 c2 : list byte) :
  forallb (fun j => Byte.eqb (nth j c1 x00) (nth j c2 x00)) idxs = true →
  ∀ j, In j idxs → nth j c1 x00 = nth j c2 x00.
Proof.
  intros H j Hj. rewrite forallb_forall in H. by apply Byte.byte_dec_bl, H.
Qed.

(** X9: of a whole record the pass uses the year, month, day, hour and
    minute bytes (4..8) and, in each of the first 34 sub-records, the
    address, the mode and the 100 sample bytes. Two whole records that
    agree on these bytes give the same result from any state: the
    seconds (byte 9), the status bytes, the rain gauge byte and the CRC
    are never used. *)
Theorem unused_fields_do_not_matter (host : byteorder) (st : state) (c1 c2 : list byte) :
  length c1 = chunksize → length c2 = chunksize →
  (∀ j, (4 ≤ j < 9)%nat → nth j c1 x00 = nth j c2 x00) →
  (∀ i j, (i < 34)%nat → (j < 2 ∨ 10 ≤ j < 110)%nat →
          nth (16 + 112 * i + j) c1 x00 = nth (16 + 112 * i + j) c2 x00) →
  iteration host st c1 = iteration host st c2.
Proof.
  intros L1 L2 Htime Hmills.
  assert (B : ∀ c : list byte, length c = chunksize →
              (16 + n_mills * chunk2size ≤ length c)%nat)
    by (intros c ->; unfold chunksize, n_mills, chunk2size; lia).
  apply iteration_reads; [by apply B | by apply B | |].
  - unfold label. by rewrite !Htime by lia.
  - intros i Hi. unfold n_mills in Hi.
    unfold mill_mode, mill_address, mill_samples.
    rewrite !nth_mill_bytes by lia.
    split; [f_equal; apply Hmills; lia|]. split; [f_equal; apply Hmills; lia|].
    f_equal. apply (nth_ext _ _ x00 x00).
    + rewrite !length_slice, !length_mill_bytes; [reflexivity|..];
        (rewrite ?L1, ?L2; unfold chunksize, chunk2size; lia).
    + intros n Hn. rewrite length_slice, length_mill_bytes in Hn
        by (rewrite L1; unfold chunksize, chunk2size; lia).
      unfold mill_size in Hn. unfold slice.
      rewrite !nth_take_drop, !nth_mill_bytes by lia.
      apply Hmills; lia.
Qed.

Lemma unused_fields_do_not_matter_witness :
  station5_record ≠ noisy_record ∧
  iteration little state_after_59 station5_record
    = iteration little state_after_59 noisy_record.
Proof.
  split.
  - intros H. apply (f_equal (fun c => nth 9 c x00)) in H. vm_compute in H. discriminate.
  - apply unused_fields_do_not_matter.
    + vm_compute. reflexivity.
    + vm_compute. reflexivity.
    + intros j Hj. apply (nth_agree (seq 4 5)); [vm_compute; reflexivity|].
      apply in_seq. lia.
    + intros i j Hi Hj.
      apply (nth_agree (flat_map (fun i => map (fun j => 16 + 112 * i + j)%nat
                                              ([0; 1] ++ seq 10 100)%nat) (seq 0 34)));
        [vm_compute; reflexivity|].
      apply in_flat_map. exists i. split; [apply in_seq; lia|].
      apply in_map, in_or_app.
      destruct Hj as [Hj|Hj]; [left | right; apply in_seq; lia].
      destruct j as [|[|j]]; [by left | by right; left | lia].
Defined.

(** ** Reading a label back *)

Lemma year_chars (b : byte) :
  ∃ a1 a2 a3 a4,
    format_0d 4 (full_year (u8 b)) = String a1 (String a2 (String a3 (String a4 ""))) ∧
    int_of_digits (String a1 (String a2 (String a3 (String a4 ""))))
      = Some (full_year (u8 b)).
Proof. destruct b; do 4 eexists; split; vm_compute; reflexivity. Qed.

Lemma two_chars (b : byte) :
  u8 b < 100 →
  ∃ a1 a2,
    format_0d 2 (u8 b) = String a1 (String a2 "") ∧
    int_of_digits (String a1 (String a2 "")) = Some (u8 b).
Proof.
  destruct b; intros H;
    first [ exfalso; vm_compute in H; discriminate H
          | do 2 eexists; split; vm_compute; reflexivity ].
Qed.

(** X10: when month, day, hour and minute are below 100 the label has 16
    characters, with [-], [-], a blank and [:] at positions 4, 7, 10 and
    13, and reading the digits between them back with [int] gives the
    year, month, day, hour and minute the label was made from. *)
Theorem label_reads_back (chunk : list byte) :
  u8 (nth 5 chunk x00) < 100 → u8 (nth 6 chunk x00) < 100 →
  u8 (nth 7 chunk x00) < 100 → u8 (nth 8 chunk x00) < 100 →
  String.length (label chunk) = 16%nat ∧
  substring 4 1 (label chunk) = "-"%string ∧
  substring 7 1 (label chunk) = "-"%string ∧
  substring 10 1 (label chunk) = " "%string ∧
  substring 13 1 (label chunk) = ":"%string ∧
  int_of_digits (substring 0 4 (label chunk)) = Some (full_year (u8 (nth 4 chunk x00))) ∧
  int_of_digits (substring 5 2 (label chunk)) = Some (u8 (nth 5 chunk x00)) ∧
  int_of_digits (substring 8 2 (label chunk)) = Some (u8 (nth 6 chunk x00)) ∧
  int_of_digits (substring 11 2 (label chunk)) = Some (u8 (nth 7 chunk x00)) ∧
  int_of_digits (substring 14 2 (label chunk)) = Some (u8 (nth 8 chunk x00)).
Proof.
  intros Hmo Hd Hh Hmi. unfold label, format_time.
  destruct (year_chars (nth 4 chunk x00)) as (y1 & y2 & y3 & y4 & -> & Ey).
  destruct (two_chars _ Hmo) as (m1 & m2 & -> & Emo).
  destruct (two_chars _ Hd) as (d1 & d2 & -> & Ed).
  destruct (two_chars _ Hh) as (h1 & h2 & -> & Eh).
  destruct (two_chars _ Hmi) as (n1 & n2 & -> & Emi).
  cbn [append substring String.length].
  repeat split; (reflexivity || assumption).
Qed.

Lemma label_reads_back_witness :
  String.length (label station5_record) = 16%nat ∧
  substring 4 1 (label station5_record) = "-"%string ∧
  substring 7 1 (label station5_record) = "-"%string ∧
  substring 10 1 (label station5_record) = " "%string ∧
  substring 13 1 (label station5_record) = ":"%string ∧
  int_of_digits (substring 0 4 (label station5_record))
    = Some (full_year (u8 (nth 4 station5_record x00))) ∧
  int_of_digits (substring 5 2 (label station5_record))
    = Some (u8 (nth 5 station5_record x00)) ∧
  int_of_digits (substring 8 2 (label station5_record))
    = Some (u8 (nth 6 station5_record x00)) ∧
  int_of_digits (substring 11 2 (label station5_record))
    = Some (u8 (nth 7 station5_record x00)) ∧
  int_of_digits (substring 14 2 (label station5_record))
    = Some (u8 (nth 8 station5_record x00)).
Proof. apply label_reads_back; vm_compute; reflexivity. Defined.

(** ** The files handed to [translate_KSC] *)

Lemma all_in_range_true (n : nat) (content : list byte) :
  length content = (n * chunksize)%nat → all_in_range n content = true →
  ∃ chunks, content = concat chunks ∧ length chunks = n ∧
    Forall (fun chunk => length chunk = chunksize ∧ addresses_in_range chunk = true) chunks.
Proof.
  revert content. induction n as [|n IH]; intros content Hl H.
  - exists []. destruct content; [done | discriminate Hl].
  - cbn [all_in_range] in H.
    destruct (addresses_in_range (take chunksize content)) eqn:Hr; [|discriminate].
    destruct (IH (drop chunksize content)) as (chunks & Hc & Hn & Hall); [|done|].
    { rewrite length_drop, Hl. lia. }
    exists (take chunksize content :: chunks). split; [|split].
    + cbn [concat]. by rewrite <- Hc, take_drop.
    + cbn [length]. by rewrite Hn.
    + constructor; [|done]. split; [|done]. rewrite length_take, Hl. lia.
Qed.

Lemma all_in_range_false (n : nat) (content : list byte) :
  length content = (n * chunksize)%nat → all_in_range n content = false →
  ∃ good bad rest, content = concat (good ++ bad :: rest) ∧
    Forall (fun chunk => length chunk = chunksize ∧ addresses_in_range chunk = true) good ∧
    length bad = chunksize ∧ addresses_in_range bad = false ∧
    Forall (fun chunk => length chunk = chunksize) rest.
Proof.
  revert content. induction n as [|n IH]; intros content Hl H; [discriminate|].
  cbn [all_in_range] in H.
  assert (Ht : length (take chunksize content) = chunksize)
    by (rewrite length_take, Hl; lia).
  assert (Hd : length (drop chunksize content) = (n * chunksize)%nat)
    by (rewrite length_drop, Hl; lia).
  destruct (addresses_in_range (take chunksize content)) eqn:Hr.
  - destruct (IH _ Hd H) as (good & bad & rest & Hc & Hg & Hb & Hbr & Hrest).
    exists (take chunksize content :: good), bad, rest.
    split; [|split; [|done]].
    + cbn [app concat]. by rewrite <- Hc, take_drop.
    + by constructor.
  - destruct (whole_records_of_size n _ Hd) as (rest & Hc & _ & Hrest).
    exists [], (take chunksize content), rest.
    split; [|split; [constructor | done]].
    cbn [app concat]. by rewrite <- Hc, take_drop.
Qed.

Lemma size_1800 (content : list byte) :
  Z.of_nat (length content) = 12931200 → length content = (1800 * chunksize)%nat.
Proof. unfold chunksize. lia. Qed.

(** A file of the right size with addresses in range gives 30 rows. *)
Lemma translate_KSC_half_hour (host : byteorder) (content : list byte) :
  Z.of_nat (length content) = 12931200 → all_in_range 1800 content = true →
  ∃ rows, translate_KSC host content = Some (rows, Returned) ∧
          length rows = 30%nat ∧ Forall (fun r : row => length r.2 = 34%nat) rows.
Proof.
  intros Hsize Hr.
  destruct (all_in_range_true 1800 content (size_1800 _ Hsize) Hr)
    as (chunks & -> & Hn & Hall).
  assert (Hw : Forall (fun chunk => length chunk = chunksize) chunks)
    by (eapply Forall_impl; [exact Hall | by intros ? [? _]]).
  destruct (feed_count host chunks start invariant_start Hall) as (rows & Hrows & Hlen).
  assert (E : translate_KSC host (concat chunks) = Some (rows, Returned))
    by (rewrite translate_KSC_feed by done; by rewrite Hrows).
  exists rows. split; [exact E|]. split.
  - rewrite Hlen, Hn. reflexivity.
  - eapply (while_true_row_width _ host start _ []);
      [apply invariant_start | constructor | exact E].
Qed.

(** A file of the right size with a stray address raises. *)
Lemma translate_KSC_stray (host : byteorder) (content : list byte) :
  Z.of_nat (length content) = 12931200 → all_in_range 1800 content = false →
  ∃ rows, translate_KSC host content = Some (rows, Raised IndexError) ∧
          Forall (fun r : row => length r.2 = 34%nat) rows.
Proof.
  intros Hsize Hr.
  destruct (all_in_range_false 1800 content (size_1800 _ Hsize) Hr)
    as (good & bad & rest & -> & Hgood & Hlen & Hbad & Hrest).
  assert (Hgood' : Forall (fun chunk => length chunk = chunksize) good)
    by (eapply Forall_impl; [exact Hgood | by intros ? [? _]]).
  assert (Hw : Forall (fun chunk => length chunk = chunksize) (good ++ bad :: rest))
    by (apply Forall_app; split; [done | by constructor]).
  destruct (feed_count host good start invariant_start Hgood) as (rows & Hrows & _).
  destruct (state_after_in_range host good start invariant_start Hgood) as (st' & Hs & Hst').
  assert (E : translate_KSC host (concat (good ++ bad :: rest))
              = Some (rows, Raised IndexError)).
  { rewrite translate_KSC_feed by done.
    destruct (feed_app_Some host good (bad :: rest) start st' [] Hs) as [-> _].
    rewrite Hrows. cbn [fst feed].
    by rewrite (iteration_stray host st' bad Hst' Hlen Hbad). }
  exists rows. split; [exact E|].
  eapply (while_true_row_width _ host start _ []);
    [apply invariant_start | constructor | exact E].
Qed.

Lemma length_cells (r : row) : length r.2 = 34%nat → length (cells r) = 35%nat.
Proof. intros H. unfold cells. cbn [length]. by rewrite length_fmap, H. Qed.

(** The loop over files that are converted without an exception or
    skipped for their size. *)
Lemma for_files_good (host : byteorder) (files : list (string * list byte)) (e : effects) :
  Forall (fun file => right_size file = true → all_in_range 1800 file.2 = true) files →
  ∃ data,
    for_files host files e =
      Some ({| csv := csv e ++ data;
               stdout := stdout e ++
                 ((fun file => ("Error in file: " ++ file.1)%string)
                    <$> filter (fun file => right_size file = false) files);
               removed := removed e ++ files.*1 |}, Returned) ∧
    length data = (30 * length (filter (fun file => right_size file = true) files))%nat ∧
    Forall (fun line => length line = 35%nat) data.
Proof.
  intros H. revert e. induction H as [|[f content] files Hf _ IH]; intros e.
  - exists []. rewrite !app_nil_r. by destruct e.
  - cbn [for_files]. rewrite !filter_cons.
    change (Z.of_nat (length content) =? 12931200) with (right_size (f, content)).
    destruct (right_size (f, content)) eqn:Hrs.
    + assert (Hsize : Z.of_nat (length content) = 12931200)
        by (by apply Z.eqb_eq).
      destruct (translate_KSC_half_hour host content Hsize (Hf eq_refl))
        as (rows & -> & Hn & Hw).
      destruct (IH {| csv := csv e ++ (cells <$> rows); stdout := stdout e;
                      removed := removed e ++ [f] |}) as (data & -> & Hd & Hl).
      cbn [csv stdout removed].
      exists ((cells <$> rows) ++ data).
      rewrite (decide_True (P := true = true)), (decide_False (P := true = false)) by done.
      split; [|split].
      * cbn [fmap list_fmap fst]. by rewrite <- !app_assoc.
      * rewrite length_app, length_fmap, Hn, Hd. cbn [length]. lia.
      * apply Forall_app. split; [|done].
        apply Forall_fmap. eapply Forall_impl; [exact Hw|]. apply length_cells.
    + destruct (IH {| csv := csv e;
                      stdout := stdout e ++ [("Error in file: " ++ f)%string];
                      removed := removed e ++ [f] |}) as (data & -> & Hd & Hl).
      cbn [csv stdout removed].
      exists data.
      rewrite (decide_True (P := false = false)), (decide_False (P := false = true)) by done.
      split; [|split; [exact Hd | exact Hl]].
      cbn [fmap list_fmap fst]. by rewrite <- !app_assoc.
Qed.

(** X11: when every file of 12931200 bytes has its addresses in range,
    [process_files] returns normally: the csv file holds the header and
    then 30 rows for each such file, every line with 35 cells; one error
    line is printed for each file of another size, followed by the
    completion message; and every file, converted or not, is removed. *)
Theorem process_files_converts (host : byteorder) (outfile : string)
    (files : list (string * list byte)) :
  Forall (fun file => right_size file = true → all_in_range 1800 file.2 = true) files →
  ∃ data,
    process_files host outfile files =
      Some ({| csv := header :: data;
               stdout := ((fun file => ("Error in file: " ++ file.1)%string)
                            <$> filter (fun file => right_size file = false) files)
                         ++ [("Processing Complete: " ++ outfile)%string];
               removed := files.*1 |}, Returned) ∧
    length data = (30 * length (filter (fun file => right_size file = true) files))%nat ∧
    Forall (fun line => length line = 35%nat) (header :: data).
Proof.
  intros H. unfold process_files.
  destruct (for_files_good host files {| csv := [header]; stdout := []; removed := [] |} H)
    as (data & -> & Hd & Hl).
  exists data. split; [reflexivity|]. split; [exact Hd|].
  constructor; [reflexivity | exact Hl].
Qed.

Lemma length_concat_replicate (n : nat) (r : list byte) :
  length (concat (replicate n r)) = (n * length r)%nat.
Proof.
  induction n as [|n IH]; [reflexivity|].
  cbn [replicate concat]. rewrite length_app, IH. lia.
Qed.

Lemma all_in_range_replicate (n : nat) (r : list byte) :
  length r = chunksize → addresses_in_range r = true →
  all_in_range n (concat (replicate n r)) = true.
Proof.
  intros Hl Hr. induction n as [|n IH]; [reflexivity|].
  cbn [replicate concat all_in_range].
  by rewrite take_app_length', drop_app_length', Hr by done.
Qed.

Lemma all_in_range_stray (n : nat) (bad : list byte) (rest : list (list byte)) :
  length bad = chunksize → addresses_in_range bad = false →
  all_in_range (S n) (concat (bad :: rest)) = false.
Proof.
  intros Hl Hr. cbn [concat all_in_range].
  by rewrite take_app_length', Hr by done.
Qed.

Lemma right_size_records (f : string) (chunks : list (list byte)) :
  length chunks = 1800%nat →
  Forall (fun chunk => length chunk = chunksize) chunks →
  right_size (f, concat chunks) = true.
Proof.
  intros Hn Hall. unfold right_size. cbn [snd]. apply Z.eqb_eq.
  assert (L : ∀ l : list (list byte),
             Forall (fun chunk => length chunk = chunksize) l →
             length (concat l) = (length l * chunksize)%nat).
  { induction 1 as [|c l Hc _ IH]; [reflexivity|].
    cbn [concat length]. rewrite length_app, Hc, IH. lia. }
  rewrite (L _ Hall), Hn. unfold chunksize. lia.
Qed.

Lemma process_files_converts_witness :
  ∃ data,
    process_files little "KSC_data/1998_226.csv"
      [("temp/199808141230.dat"%string, half_hour_file);
       ("temp/199808141300.dat"%string, station5_record)] =
      Some ({| csv := header :: data;
               stdout := ((fun file => ("Error in file: " ++ file.1)%string)
                            <$> filter (fun file => right_size file = false)
                                  [("temp/199808141230.dat"%string, half_hour_file);
                                   ("temp/199808141300.dat"%string, station5_record)])
                         ++ [("Processing Complete: " ++ "KSC_data/1998_226.csv")%string];
               removed := [("temp/199808141230.dat"%string, half_hour_file);
                           ("temp/199808141300.dat"%string, station5_record)].*1 |},
            Returned) ∧
    length data
      = (30 * length (filter (fun file => right_size file = true)
                        [("temp/199808141230.dat"%string, half_hour_file);
                         ("temp/199808141300.dat"%string, station5_record)]))%nat ∧
    Forall (fun line => length line = 35%nat) (header :: data).
Proof.
  apply process_files_converts.
  constructor; [|constructor; [|constructor]].
  - intros _. apply all_in_range_replicate; vm_compute; reflexivity.
  - intros H. vm_compute in H. discriminate H.
Defined.

Lemma for_files_app (host : byteorder) (a b : list (string * list byte)) (e : effects) :
  for_files host (a ++ b) e =
    match for_files host a e with
    | Some (e', Returned) => for_files host b e'
    | other => other
    end.
Proof.
  revert e. induction a as [|[f content] a IH]; intros e; [reflexivity|].
  cbn [app for_files].
  destruct (Z.of_nat (length content) =? 12931200); [|apply IH].
  destruct (translate_KSC host content) as [[rows [|x]]|]; [apply IH | reflexivity..].
Qed.

(** X12: when a file of 12931200 bytes contains a record with a stray
    address, [process_files] raises [IndexError] at that file. The files
    before it have been handled and removed; that file and the files
    after it are not removed, the completion message is not printed, and
    the csv file keeps the header and the rows written so far, every line
    with 35 cells. *)
Theorem process_files_stops_at_exception (host : byteorder) (outfile : string)
    (before after : list (string * list byte)) (f : string) (content : list byte) :
  Forall (fun file => right_size file = true → all_in_range 1800 file.2 = true) before →
  right_size (f, content) = true → all_in_range 1800 content = false →
  ∃ data,
    process_files host outfile (before ++ (f, content) :: after) =
      Some ({| csv := header :: data;
               stdout := (fun file => ("Error in file: " ++ file.1)%string)
                           <$> filter (fun file => right_size file = false) before;
               removed := before.*1 |}, Raised IndexError) ∧
    Forall (fun line => length line = 35%nat) (header :: data).
Proof.
  intros Hb Hsize Hr. unfold process_files.
  destruct (for_files_good host before {| csv := [header]; stdout := []; removed := [] |} Hb)
    as (data & Hdata & _ & Hl).
  rewrite for_files_app, Hdata. cbn [for_files csv stdout removed app].
  change (Z.of_nat (length content) =? 12931200) with (right_size (f, content)).
  rewrite Hsize.
  destruct (translate_KSC_stray host content) as (rows & -> & Hw);
    [by apply Z.eqb_eq | exact Hr |].
  exists (data ++ (cells <$> rows)). split; [reflexivity|].
  constructor; [reflexivity|]. apply Forall_app. split; [exact Hl|].
  apply Forall_fmap. eapply Forall_impl; [exact Hw|]. apply length_cells.
Qed.

Lemma process_files_stops_at_exception_witness :
  ∃ data,
    process_files little "KSC_data/1998_226.csv"
      ([("temp/199808141200.dat"%string, station5_record)]
         ++ ("temp/199808141230.dat"%string, half_hour_file_with_stray)
         :: [("temp/199808141300.dat"%string, half_hour_file)]) =
      Some ({| csv := header :: data;
               stdout := (fun file => ("Error in file: " ++ file.1)%string)
                           <$> filter (fun file => right_size file = false)
                                 [("temp/199808141200.dat"%string, station5_record)];
               removed := [("temp/199808141200.dat"%string, station5_record)].*1 |},
            Raised IndexError) ∧
    Forall (fun line => length line = 35%nat) (header :: data).
Proof.
  apply process_files_stops_at_exception.
  - constructor; [|constructor]. intros H. vm_compute in H. discriminate H.
  - apply right_size_records; [reflexivity|].
    constructor; [vm_compute; reflexivity|].
    apply Forall_forall. intros c Hc. apply elem_of_replicate in Hc as [-> _].
    vm_compute. reflexivity.
  - apply all_in_range_stray; vm_compute; reflexivity.
Defined.

(** ** One name for each day *)

Lemma four_digits (n : Z) :
  0 ≤ n < 10000 →
  String.length (format_0d 4 n) = 4%nat ∧ int_of_digits (format_0d 4 n) = Some n.
Proof.
  intros H.
  assert (T : forallb (fun k => Nat.eqb (String.length (format_0d 4 (Z.of_nat k))) 4
                                && match int_of_digits (format_0d 4 (Z.of_nat k)) with
                                   | Some m => m =? Z.of_nat k
                                   | None => false
                                   end)
                      (seq 0 (Z.to_nat 10000)) = true) by (vm_compute; reflexivity).
  rewrite forallb_forall in T.
  assert (Hin : In (Z.to_nat n) (seq 0 (Z.to_nat 10000))) by (apply in_seq; lia).
  apply T in Hin. rewrite Z2Nat.id in Hin by lia.
  apply andb_true_iff in Hin as [T1 T2].
  split; [by apply Nat.eqb_eq|].
  destruct (int_of_digits (format_0d 4 n)) as [m|]; [|discriminate].
  f_equal. by apply Z.eqb_eq.
Qed.

Lemma three_digits (n : Z) :
  0 ≤ n < 1000 →
  String.length (format_0d 3 n) = 3%nat ∧ int_of_digits (format_0d 3 n) = Some n.
Proof.
  intros H.
  assert (T : forallb (fun k => Nat.eqb (String.length (format_0d 3 (Z.of_nat k))) 3
                                && match int_of_digits (format_0d 3 (Z.of_nat k)) with
                                   | Some m => m =? Z.of_nat k
                                   | None => false
                                   end)
                      (seq 0 (Z.to_nat 1000)) = true) by (vm_compute; reflexivity).
  rewrite forallb_forall in T.
  assert (Hin : In (Z.to_nat n) (seq 0 (Z.to_nat 1000))) by (apply in_seq; lia).
  apply T in Hin. rewrite Z2Nat.id in Hin by lia.
  apply andb_true_iff in Hin as [T1 T2].
  split; [by apply Nat.eqb_eq|].
  destruct (int_of_digits (format_0d 3 n)) as [m|]; [|discriminate].
  f_equal. by apply Z.eqb_eq.
Qed.

Lemma append_inj_length (s1 s2 r1 r2 : string) :
  String.length s1 = String.length s2 → (s1 ++ r1)%string = (s2 ++ r2)%string →
  s1 = s2 ∧ r1 = r2.
Proof.
  revert s2. induction s1 as [|a s1 IH]; intros [|b s2] Hl H; try discriminate Hl.
  - done.
  - cbn [append] in H. injection H as -> H. injection Hl as Hl.
    destruct (IH s2 Hl H) as [-> ->]. done.
Qed.

Lemma digits_pair_inj (w1 w2 : nat) (sep r : string) (y d y' d' : Z) :
  String.length (format_0d w1 y) = String.length (format_0d w1 y') →
  String.length (format_0d w2 d) = String.length (format_0d w2 d') →
  int_of_digits (format_0d w1 y) = Some y → int_of_digits (format_0d w1 y') = Some y' →
  int_of_digits (format_0d w2 d) = Some d → int_of_digits (format_0d w2 d') = Some d' →
  (format_0d w1 y ++ sep ++ format_0d w2 d ++ r)%string
    = (format_0d w1 y' ++ sep ++ format_0d w2 d' ++ r)%string →
  y = y' ∧ d = d'.
Proof.
  intros L1 L2 Ey Ey' Ed Ed' H.
  apply append_inj_length in H as [Hy H]; [|exact L1].
  apply append_inj_length in H as [_ H]; [|reflexivity].
  apply append_inj_length in H as [Hd _]; [|exact L2].
  rewrite Hy, Ey' in Ey. rewrite Hd, Ed' in Ed.
  injection Ey as ->. injection Ed as ->. done.
Qed.

(** X13: for years 0..9999 and days 0..999, which include the years
    1997..2012 and days 1..365 the script runs over, two different
    (year, day) pairs never get the same archive name, the same url or
    the same output file. *)
Theorem one_name_per_day (year day year' day' : Z) :
  0 ≤ year < 10000 → 0 ≤ day < 1000 → 0 ≤ year' < 10000 → 0 ≤ day' < 1000 →
  (tf_name year day = tf_name year' day' → year = year' ∧ day = day') ∧
  (url year day = url year' day' → year = year' ∧ day = day') ∧
  (outfile year day = outfile year' day' → year = year' ∧ day = day').
Proof.
  intros Hy Hd Hy' Hd'.
  destruct (four_digits year Hy) as [Ly Ey], (four_digits year' Hy') as [Ly' Ey'].
  destruct (three_digits day Hd) as [Ld Ed], (three_digits day' Hd') as [Ld' Ed'].
  assert (P : ∀ sep r,
             (format_0d 4 year ++ sep ++ format_0d 3 day ++ r)%string
               = (format_0d 4 year' ++ sep ++ format_0d 3 day' ++ r)%string →
             year = year' ∧ day = day')
    by (intros sep r; apply digits_pair_inj; congruence).
  split; [|split]; intros H.
  - unfold tf_name, file_name in H.
    apply append_inj_length in H as [_ H]; [|reflexivity].
    apply append_inj_length in H as [_ H]; [|reflexivity].
    by apply P in H.
  - unfold url, file_name in H.
    apply append_inj_length in H as [_ H]; [|reflexivity].
    apply append_inj_length in H as [_ H];
      [|rewrite !length_append; congruence].
    apply append_inj_length in H as [_ H]; [|reflexivity].
    by apply P in H.
  - unfold outfile in H.
    apply append_inj_length in H as [_ H]; [|reflexivity].
    by apply P in H.
Qed.

Lemma one_name_per_day_witness :
  (tf_name 1997 226 = tf_name 2012 1 → 1997 = 2012 ∧ 226 = 1) ∧
  (url 1997 226 = url 2012 1 → 1997 = 2012 ∧ 226 = 1) ∧
  (outfile 1997 226 = outfile 2012 1 → 1997 = 2012 ∧ 226 = 1).
Proof. apply one_name_per_day; lia. Defined.

(** The names of day 226 of 1997. *)
Example names_1997_226 :
  tf_name 1997 226 = "tars/agbfm_1997.226_daily.tar"%string ∧
  url 1997 226
    = "ftp://ghrc.nsstc.nasa.gov/pub/data/ksc-fieldmill/1997/agbfm_1997.226_daily.tar"%string ∧
  outfile 1997 226 = "KSC_data/1997_226.csv"%string.
Proof. repeat split; vm_compute; reflexivity. Qed.

(** ** A last record that is cut short *)

Lemma feed_agree (host : byteorder) (a b : list (list byte)) (st : state)
    (written : list row) :
  Forall2 (fun c1 c2 => ∀ st', iteration host st' c1 = iteration host st' c2) a b →
  feed host st a written = feed host st b written.
Proof.
  intros H. revert st written.
  induction H as [|c1 c2 a b Hc _ IH]; intros st written; [reflexivity|].
  cbn [feed]. rewrite (Hc st).
  destruct (iteration host st c2) as [[|st' out]|e]; try reflexivity. apply IH.
Qed.

Lemma slices_of_prefix (c1 c2 : list byte) :
  take 3824 c1 = take 3824 c2 →
  slice 4 10 c1 = slice 4 10 c2 ∧ slice 16 3824 c1 = slice 16 3824 c2.
Proof.
  intros H. unfold slice.
  assert (E1 : ∀ c : list byte, take (10 - 4) (drop 4 c) = take (10 - 4) (drop 4 (take 3824 c)))
    by (intros c; rewrite skipn_firstn_comm, take_take; f_equal).
  assert (E2 : ∀ c : list byte,
             take (3824 - 16) (drop 16 c) = take (3824 - 16) (drop 16 (take 3824 c)))
    by (intros c; rewrite skipn_firstn_comm, take_take; f_equal).
  by rewrite (E1 c1), (E1 c2), (E2 c1), (E2 c2), H.
Qed.

(** X14: a last read of 3824 to 7183 bytes, the size of the header and
    the 34 sub-records that are used or more, is converted and counted
    like a whole record with the same first 3824 bytes: the file gives
    the same rows and ends in the same way as the file in which the last
    record is complete. *)
Theorem truncated_last_record_is_converted (host : byteorder)
    (chunks : list (list byte)) (tail whole : list byte) :
  Forall (fun chunk => length chunk = chunksize) chunks →
  (3824 ≤ length tail < chunksize)%nat →
  length whole = chunksize →
  take 3824 whole = take 3824 tail →
  translate_KSC host (concat chunks ++ tail)
    = translate_KSC host (concat (chunks ++ [whole])).
Proof.
  intros Hfull Htail Hwhole Hsame.
  rewrite translate_KSC_feed by (apply Forall_app; split; [done | by constructor]).
  unfold translate_KSC. rewrite while_true_concat_tail; try done.
  - f_equal. apply feed_agree. apply Forall2_app.
    + apply Forall_Forall2_diag. by apply Forall_true.
    + constructor; [|constructor]. intros st'.
      destruct (slices_of_prefix whole tail Hsame) as [Ht Hm].
      rewrite (iteration_nonempty host st' tail), (iteration_nonempty host st' whole).
      * by rewrite (chunk_time_agree _ _ Ht), (mills_agree host _ _ _ Hm).
      * by apply whole_record_nonempty.
      * intros ->. cbn [length] in Htail. lia.
  - lia.
  - pose proof (length_concat_full _ Hfull). rewrite length_app. lia.
Qed.

Lemma truncated_last_record_is_converted_witness :
  translate_KSC little (concat (replicate 59 station5_record) ++ take 3824 station5_record)
    = translate_KSC little (concat (replicate 59 station5_record ++ [station5_record])).
Proof.
  apply truncated_last_record_is_converted.
  - apply Forall_whole. vm_compute. reflexivity.
  - split; [apply Nat.leb_le | apply Nat.ltb_lt]; vm_compute; reflexivity.
  - vm_compute. reflexivity.
  - vm_compute. reflexivity.
Defined.

(** ** Every row comes from its own window *)

Lemma first_window (host : byteorder) (w : list (list byte)) :
  length w = 60%nat →
  Forall (fun chunk => length chunk = chunksize ∧ addresses_in_range chunk = true) w →
  ∃ r st', feed host start w [] = ([r], Returned) ∧
           state_after host start w = Some st' ∧ second_count st' = 0.
Proof.
  intros Hlen Hw.
  destruct (feed_count host w start invariant_start Hw) as (new & Hnew & Hn).
  destruct (state_after_in_range host w start invariant_start Hw) as (st' & Hs & _).
  rewrite Hlen in Hn. cbn [second_count start] in Hn.
  destruct new as [|r [|? ?]]; try discriminate Hn.
  exists r, st'. split; [exact Hnew|]. split; [exact Hs|].
  rewrite (state_after_counter host w start st') by done.
  rewrite Hlen. reflexivity.
Qed.

(** X15: in a file of whole records with addresses in range, row [j] is
    exactly the one row that records [60j .. 60j+59] give when they are
    converted on their own: nothing of the other records enters it. *)
Theorem each_row_is_its_window (host : byteorder) (chunks : list (list byte)) (j : nat) :
  Forall (fun chunk => length chunk = chunksize ∧ addresses_in_range chunk = true) chunks →
  (60 * (j + 1) ≤ length chunks)%nat →
  ∃ rows r,
    translate_KSC host (concat chunks) = Some (rows, Returned) ∧
    rows !! j = Some r ∧
    translate_KSC host (concat (take 60 (drop (60 * j) chunks))) = Some ([r], Returned).
Proof.
  revert chunks. induction j as [|j IH]; intros chunks Hall Hlen.
  - assert (Hw : Forall (fun chunk => length chunk = chunksize ∧
                                      addresses_in_range chunk = true) (take 60 chunks))
      by (by apply Forall_take).
    assert (Hw' : Forall (fun chunk => length chunk = chunksize) (take 60 chunks))
      by (eapply Forall_impl; [exact Hw | by intros ? [? _]]).
    assert (Hall' : Forall (fun chunk => length chunk = chunksize) chunks)
      by (eapply Forall_impl; [exact Hall | by intros ? [? _]]).
    destruct (first_window host (take 60 chunks)) as (r & st' & Hf & Hs & H0);
      [rewrite length_take; lia | exact Hw |].
    destruct (feed_count host chunks start invariant_start Hall) as (rows & Hrows & _).
    exists rows, r. rewrite translate_KSC_feed by done.
    split; [by rewrite Hrows|]. split.
    + rewrite <- (take_drop 60 chunks) in Hrows.
      destruct (feed_app_Some host (take 60 chunks) (drop 60 chunks) start st' [] Hs)
        as [E _].
      rewrite E, Hf, feed_written in Hrows. cbn [fst] in Hrows.
      injection Hrows as <-. reflexivity.
    + change (60 * 0)%nat with 0%nat. rewrite drop_0.
      rewrite translate_KSC_feed by done. by rewrite Hf.
  - assert (Hw : Forall (fun chunk => length chunk = chunksize ∧
                                      addresses_in_range chunk = true) (take 60 chunks))
      by (by apply Forall_take).
    assert (Hr : Forall (fun chunk => length chunk = chunksize ∧
                                      addresses_in_range chunk = true) (drop 60 chunks))
      by (by apply Forall_drop).
    assert (Hall' : Forall (fun chunk => length chunk = chunksize) chunks)
      by (eapply Forall_impl; [exact Hall | by intros ? [? _]]).
    assert (Hr' : Forall (fun chunk => length chunk = chunksize) (drop 60 chunks))
      by (eapply Forall_impl; [exact Hr | by intros ? [? _]]).
    destruct (first_window host (take 60 chunks)) as (r0 & st' & Hf & Hs & H0);
      [rewrite length_take; lia | exact Hw |].
    destruct (IH (drop 60 chunks) Hr) as (rows' & r & Hrows' & Hj & Hwin);
      [rewrite length_drop; lia|].
    rewrite translate_KSC_feed in Hrows' by done. injection Hrows' as Hrows'.
    exists (r0 :: rows'), r. split; [|split].
    + rewrite translate_KSC_feed by done. f_equal.
      rewrite <- (take_drop 60 chunks) at 1.
      destruct (feed_app_Some host (take 60 chunks) (drop 60 chunks) start st' [] Hs)
        as [-> _].
      rewrite Hf. cbn [fst]. by rewrite feed_fresh, feed_written, Hrows'.
    + exact Hj.
    + rewrite drop_drop in Hwin.
      by replace (60 * S j)%nat with (60 + 60 * j)%nat by lia.
Qed.

Lemma each_row_is_its_window_witness :
  ∃ rows r,
    translate_KSC little (concat (replicate 120 station5_record)) = Some (rows, Returned) ∧
    rows !! 1%nat = Some r ∧
    translate_KSC little (concat (take 60 (drop (60 * 1) (replicate 120 station5_record))))
      = Some ([r], Returned).
Proof.
  apply each_row_is_its_window.
  - apply Forall_whole_in_range. vm_compute. reflexivity.
  - apply Nat.leb_le. vm_compute. reflexivity.
Defined.
